(** * rag-with-langchain: session history, answer extraction and loading

    A shallow embedding of the original logic of the repository:
    - [fastapi/src/chat/history.py]: the per-session chat history factory,
    - [fastapi/src/rag/rag.py], [fastapi_interface/src/rag/utils.py],
      [fastapi_interface/src/chat/output_parser.py]: the answer extractors,
    - [fastapi/src/rag/file_loader.py]: the directory loader.

    Python [str] values are modelled as [string]; a character is a code
    point below 256.  Python [int] values are modelled as [Z].  The parts of
    the Python standard library and of langchain that the code calls ([re],
    [str.strip], [os.path.join], [glob.glob], [FileChatMessageHistory]) are
    modelled next to the code that uses them, each with the behaviour that
    its documentation states, on a POSIX host and with assertions enabled. *)

From Stdlib Require Import Ascii String ZArith Lia Bool.
From stdpp Require Import base option list gmap strings.

Local Open Scope Z_scope.

(** ** Results and exceptions *)

Inductive exn : Type :=
| HTTPException (status_code : Z) (detail : string)
| AssertionError (msg : string)
| AttributeError
| RecursionError
| UnboundLocalError
| ValueError (msg : string)
| LoaderError (file : string).

Inductive result (A : Type) : Type :=
| Ok (a : A)
| Raise (e : exn).
Arguments Ok {A} a.
Arguments Raise {A} e.

(** The error monad in which raising code runs ([x ← r; k]). *)
#[global] Instance result_ret : MRet result := fun A a => Ok a.
#[global] Instance result_bind : MBind result := fun A B f r =>
  match r with
  | Ok a => f a
  | Raise e => Raise e
  end.

Definition is_ok {A : Type} (r : result A) : bool :=
  match r with Ok _ => true | Raise _ => false end.

(** ** Python [str] *)

Module Str.

(** The newline character as a string. *)
Definition nl : string := String "010" EmptyString.

(** [ord(c)] *)
Definition ord (c : ascii) : Z := Z.of_N (N_of_ascii c).

(** [c.isspace()]: the code points below 256 that Python classifies as
    whitespace.  [\s] of a [str] pattern and [str.strip()] both use this
    test. *)
Definition isspace (c : ascii) : bool :=
  let n := ord c in
  ((9 <=? n) && (n <=? 13)) || ((28 <=? n) && (n <=? 32))
  || (n =? 133) || (n =? 160).

Fixpoint all (p : ascii -> bool) (s : string) : bool :=
  match s with
  | EmptyString => true
  | String c s' => p c && all p s'
  end.

(** [c in s] *)
Fixpoint contains_char (c : ascii) (s : string) : bool :=
  match s with
  | EmptyString => false
  | String a s' => Ascii.eqb a c || contains_char c s'
  end.

(** [s.startswith(p)] *)
Fixpoint startswith (p s : string) : bool :=
  match p, s with
  | EmptyString, _ => true
  | String a p', String b s' => Ascii.eqb a b && startswith p' s'
  | String _ _, EmptyString => false
  end.

(** [s.endswith(p)] *)
Fixpoint endswith (p s : string) : bool :=
  String.eqb s p
  || match s with
     | EmptyString => false
     | String _ s' => endswith p s'
     end.

(** [s[:n]] and [s[n:]] for [n >= 0] *)
Fixpoint take (n : nat) (s : string) : string :=
  match n, s with
  | S n', String c s' => String c (take n' s')
  | _, _ => EmptyString
  end.

Fixpoint drop (n : nat) (s : string) : string :=
  match n, s with
  | S n', String _ s' => drop n' s'
  | _, _ => s
  end.

(** [s.lstrip()], [s.rstrip()], [s.strip()] *)
Fixpoint lstrip (s : string) : string :=
  match s with
  | EmptyString => EmptyString
  | String c s' => if isspace c then lstrip s' else s
  end.

Fixpoint rstrip (s : string) : string :=
  match s with
  | EmptyString => EmptyString
  | String c s' =>
      match rstrip s' with
      | EmptyString => if isspace c then EmptyString else String c EmptyString
      | t => String c t
      end
  end.

Definition strip (s : string) : string := rstrip (lstrip s).

(** The number of leading characters of [s] that [p] accepts. *)
Fixpoint span (p : ascii -> bool) (s : string) : nat :=
  match s with
  | EmptyString => O
  | String c s' => if p c then S (span p s') else O
  end.

(** [s.partition(m)[2]] when [m] occurs in [s]: what follows the first
    occurrence of [m]. *)
Fixpoint after (m s : string) : option string :=
  if startswith m s then Some (drop (String.length m) s)
  else match s with
       | EmptyString => None
       | String _ s' => after m s'
       end.

(** [sep.join(parts)] *)
Fixpoint join (sep : string) (parts : list string) : string :=
  match parts with
  | [] => EmptyString
  | [p] => p
  | p :: ps => p +:+ sep +:+ join sep ps
  end.

End Str.

(** ** Python [re]: the fragment of the pattern syntax that the repository
    uses, with the backtracking semantics of the [re] module (leftmost
    match, greedy repetition). *)

Module Re.

Inductive regex : Type :=
| Chr (c : ascii)             (* a literal character *)
| Cls (p : ascii -> bool)     (* a character set [[...]] or a class such as [\s] *)
| Dot                         (* [.] *)
| Bol                         (* [^] *)
| Eol                         (* [$] *)
| Cat (r1 r2 : regex)         (* concatenation *)
| Star (r : regex)            (* greedy [r*] *)
| Grp (r : regex).            (* the capturing group number 1 *)

(** [r+] *)
Definition Plus (r : regex) : regex := Cat r (Star r).

(** A literal string followed by [r]. *)
Fixpoint Lit (m : string) (r : regex) : regex :=
  match m with
  | EmptyString => r
  | String c m' => Cat (Chr c) (Lit m' r)
  end.

Inductive flags : Type := NOFLAG | DOTALL.

(** The matcher's position in the subject: [pos] characters are behind it,
    [rest] is ahead, [group1] is what group 1 holds so far. *)
Record cursor : Type := Cursor {
  pos : nat;
  rest : string;
  group1 : option string
}.

(** The cursor [j] characters further on. *)
Definition advance (j : nat) (c : cursor) : cursor :=
  Cursor (pos c + j) (Str.drop j (rest c)) (group1 c).

Section Engine.
Variable fl : flags.
Context {A : Type}.

Definition dot_accepts (c : ascii) : bool :=
  match fl with
  | DOTALL => true
  | NOFLAG => negb (Ascii.eqb c "010")
  end.

(** Consume one character accepted by [p]. *)
Definition step1 (p : ascii -> bool) (c : cursor)
    (k : cursor -> option A) : option A :=
  match rest c with
  | String a s => if p a then k (Cursor (S (pos c)) s (group1 c)) else None
  | EmptyString => None
  end.

(** Greedy repetition: one more round of [body] first, the continuation
    only when that fails.  A round that consumes nothing is refused. *)
Fixpoint star_loop (body : cursor -> (cursor -> option A) -> option A)
    (fuel : nat) (c : cursor) (k : cursor -> option A) : option A :=
  match fuel with
  | O => k c
  | S fuel' =>
      match body c (fun c' =>
                      if (pos c <? pos c')%nat
                      then star_loop body fuel' c' k
                      else None) with
      | Some x => Some x
      | None => k c
      end
  end.

(** [$] without [re.MULTILINE]: the end of the subject, or just before a
    newline that is the last character of the subject. *)
Definition at_eol (s : string) : bool :=
  match s with
  | EmptyString => true
  | String c EmptyString => Ascii.eqb c "010"
  | _ => false
  end.

Fixpoint run (r : regex) (c : cursor) (k : cursor -> option A) : option A :=
  match r with
  | Chr x => step1 (Ascii.eqb x) c k
  | Cls p => step1 p c k
  | Dot => step1 dot_accepts c k
  | Bol => if (pos c =? 0)%nat then k c else None
  | Eol => if at_eol (rest c) then k c else None
  | Cat r1 r2 => run r1 c (fun c' => run r2 c' k)
  | Star r' => star_loop (run r') (String.length (rest c)) c k
  | Grp r' =>
      run r' c (fun c' =>
        k (Cursor (pos c') (rest c')
             (Some (Str.take (pos c' - pos c) (rest c)))))
  end.
End Engine.

(** A match object is the cursor at the end of the match. *)
Definition match_at (fl : flags) (r : regex) (i : nat) (s : string)
    : option cursor :=
  run fl r (Cursor i s None) Some.

(** [re.match(r, s, fl)]: a match at index 0 only. *)
Definition match_ (r : regex) (s : string) (fl : flags) : option cursor :=
  match_at fl r 0 s.

(** [re.search(r, s, fl)]: the first index at which [r] matches. *)
Fixpoint search_from (fl : flags) (r : regex) (i : nat) (s : string)
    : option cursor :=
  match match_at fl r i s with
  | Some m => Some m
  | None =>
      match s with
      | EmptyString => None
      | String _ s' => search_from fl r (S i) s'
      end
  end.

Definition search (r : regex) (s : string) (fl : flags) : option cursor :=
  search_from fl r 0 s.

(** [m.group(1).strip()]: [group(1)] is [None] when the group took no part
    in the match, and [None.strip()] raises. *)
Definition group1_strip (m : cursor) : result string :=
  match group1 m with
  | Some g => Ok (Str.strip g)
  | None => Raise AttributeError
  end.

End Re.

(** ** [os.path] on a POSIX host *)

Module Posixpath.

(** [os.path.join(a, b)] *)
Definition join (a b : string) : string :=
  if Str.startswith "/" b then b
  else if String.eqb a "" || Str.endswith "/" a then a +:+ b
  else a +:+ "/" +:+ b.

End Posixpath.

(** ** Chat turns and the per-session record *)

Inductive role : Type := human | ai.

Record message : Type := Message {
  msg_role : role;
  content : string
}.

#[global] Instance role_eq_dec : EqDecision role.
Proof. solve_decision. Defined.
#[global] Instance message_eq_dec : EqDecision message.
Proof. solve_decision. Defined.

(** The files of the host, by path; a history file holds the JSON list of
    the session's messages. *)
Abbreviation files := (gmap string (list message)).

(** Modelled from the spec: langchain's [FileChatMessageHistory], the class
    that [history.py] imports and whose code is outside the repository.  The
    specification gives its contract: a session owns an ordered sequence of
    turns persisted to one durable record; the record is created lazily on
    first access; new turns are appended in arrival order; a rewrite
    replaces the record. *)
Module FileChatMessageHistory.

(** The object remembers its path only; the messages live in the file. *)
Record t : Type := Make { file_path : string }.

(** [FileChatMessageHistory(file_path)]: a file that does not exist yet is
    created holding the empty list. *)
Definition init (path : string) (fs : files) : t * files :=
  match fs !! path with
  | Some _ => (Make path, fs)
  | None => (Make path, <[path := []]> fs)
  end.

(** [self.messages]: the content of the file. *)
Definition messages (h : t) (fs : files) : list message :=
  default [] (fs !! file_path h).

(** [self.clear()]: the file is rewritten with the empty list. *)
Definition clear (h : t) (fs : files) : files :=
  <[file_path h := []]> fs.

(** [self.add_message(m)]: the file is rewritten with the stored messages
    followed by [m]. *)
Definition add_message (h : t) (m : message) (fs : files) : files :=
  <[file_path h := messages h fs ++ [m]]> fs.

End FileChatMessageHistory.

(** ** Python lists *)

(** [l[start:]] *)
Definition slice_from {A : Type} (start : Z) (l : list A) : list A :=
  let n := Z.of_nat (length l) in
  let i := if start <? 0 then Z.max 0 (start + n) else Z.min start n in
  drop (Z.to_nat i) l.

(** ** fastapi/src/chat/history.py *)

Module History.

Import FileChatMessageHistory.

(** The set [[a-zA-Z0-9-_]]: the hyphen after the range [0-9] is a
    literal. *)
Definition id_char (c : ascii) : bool :=
  let n := Str.ord c in
  ((97 <=? n) && (n <=? 122)) || ((65 <=? n) && (n <=? 90))
  || ((48 <=? n) && (n <=? 57)) || (n =? 45) || (n =? 95).

(** [re.compile(r"^[a-zA-Z0-9-_]+$")] *)
Definition valid_characters : Re.regex :=
  Re.Cat Re.Bol (Re.Cat (Re.Plus (Re.Cls id_char)) Re.Eol).

Definition _is_valid_identifier (value : string) : bool :=
  bool_decide (is_Some (Re.match_ valid_characters value Re.NOFLAG)).

Definition invalid_detail (session_id : string) : string :=
  "Session ID `" +:+ session_id +:+ "` is invalid. "
  +:+ "It can only contain letters, numbers, hyphens (-), and underscores (_).".

(** The path of the record of a session. *)
Definition session_path (base_dir session_id : string) : string :=
  Posixpath.join base_dir (session_id +:+ ".json").

(** The closure that [create_session_factory] returns.  The host's files
    are threaded through; a raised exception leaves them as they were at
    the [raise]. *)
Definition get_chat_history (base_dir : string) (max_history_length : Z)
    (session_id : string) (fs : files) : result t * files :=
  if negb (_is_valid_identifier session_id) then
    (Raise (HTTPException 400 (invalid_detail session_id)), fs)
  else
    let file_path := session_path base_dir session_id in
    let '(chat_hist, fs) := init file_path fs in
    let messages := messages chat_hist fs in
    let fs :=
      if Z.of_nat (length messages) >? max_history_length then
        let fs := clear chat_hist fs in
        foldl (fun fs message => add_message chat_hist message fs) fs
          (slice_from (- max_history_length) messages)
      else fs in
    (Ok chat_hist, fs).

(** [create_session_factory(base_dir, max_history_length)].  The directory
    [base_dir] is created when missing; directories are not part of
    [files]. *)
Definition create_session_factory (base_dir : string)
    (max_history_length : Z) : string -> files -> result t * files :=
  get_chat_history base_dir max_history_length.

(** The record of a session as stored on the host. *)
Definition stored (base_dir session_id : string) (fs : files)
    : option (list message) :=
  fs !! session_path base_dir session_id.

End History.

(** ** fastapi/src/rag/rag.py *)

Module Rag.

(** The default pattern: the marker [Answer:], any whitespace, and a
    group that takes every remaining character. *)
Definition answer_pattern : Re.regex :=
  Re.Lit "Answer:"
    (Re.Cat (Re.Star (Re.Cls Str.isspace)) (Re.Grp (Re.Star Re.Dot))).

(** [Str_OutputParser._extract_answer] *)
Definition _extract_answer (text_response : string) (pattern : Re.regex)
    : result string :=
  match Re.search pattern text_response Re.DOTALL with
  | Some m => Re.group1_strip m
  | None => Ok text_response
  end.

(** [Str_OutputParser.parse] *)
Definition parse (text : string) : result string :=
  _extract_answer text answer_pattern.

End Rag.

(** ** fastapi_interface/src/rag/utils.py *)

Module Utils.

Definition extract_answer (text_response : string) (pattern : Re.regex)
    : result string :=
  match Re.search pattern text_response Re.NOFLAG with
  | Some m => Re.group1_strip m
  | None => Ok "Answer not found."
  end.

End Utils.

(** ** fastapi_interface/src/chat/output_parser.py *)

Module OutputParser.

(** The two default patterns: a newline, the marker [Assistant:] (or
    [AI:]), and a group that takes every remaining character. *)
Definition assistant_pattern : Re.regex :=
  Re.Lit (Str.nl +:+ "Assistant:") (Re.Grp (Re.Star Re.Dot)).
Definition ai_pattern : Re.regex :=
  Re.Lit (Str.nl +:+ "AI:") (Re.Grp (Re.Star Re.Dot)).

Definition default : string := "Sorry, I am not sure how to help with that.".

(** [recursive_extract] under the interpreter's limit on recursion.
    [depth] is the number of nested calls of the function that the
    interpreter still allows where the outermost call is made: what is left
    of [sys.getrecursionlimit()] after the frames already in use and the
    frames that one [re.search] needs.  A call that finds none left raises
    [RecursionError], which every enclosing call lets through. *)
Fixpoint recursive_extract_depth (depth : nat) (text : string)
    (pattern : Re.regex) (default_answer : string) : result string :=
  match depth with
  | O => Raise RecursionError
  | S depth' =>
      match Re.search pattern text Re.DOTALL with
      | Some m =>
          assistant_text ← Re.group1_strip m;
          recursive_extract_depth depth' assistant_text pattern assistant_text
      | None => Ok default_answer
      end
  end.

(** The variables of the loop of [_extract_answer]; [output_text] is
    unbound until the first round. *)
Record vars : Type := Vars {
  input_text : string;
  default_answer : string;
  output_text : option string
}.

Section Interpreter.
(** The nested calls of [recursive_extract] that the interpreter allows
    where the parser runs. *)
Variable depth : nat.

Definition recursive_extract (text : string) (pattern : Re.regex)
    (default_answer : string) : result string :=
  recursive_extract_depth depth text pattern default_answer.

Definition loop_body (v : vars) (pattern : Re.regex) : result vars :=
  out ← recursive_extract (input_text v) pattern (default_answer v);
  if negb (String.eqb out (default_answer v))
  then Ok (Vars out out (Some out))
  else Ok (Vars (input_text v) (default_answer v) (Some out)).

Fixpoint for_patterns (v : vars) (patterns : list Re.regex) : result vars :=
  match patterns with
  | [] => Ok v
  | pattern :: patterns' =>
      v' ← loop_body v pattern;
      for_patterns v' patterns'
  end.

(** [Str_OutputParser._extract_answer] *)
Definition _extract_answer (text_response : string)
    (patterns : option (list Re.regex)) (default : string) : result string :=
  let patterns :=
    match patterns with
    | None => [assistant_pattern; ai_pattern]
    | Some ps => ps
    end in
  v ← for_patterns (Vars text_response default None) patterns;
  match output_text v with
  | Some out => Ok out
  | None => Raise UnboundLocalError
  end.

(** [Str_OutputParser.parse] *)
Definition parse (text : string) : result string :=
  _extract_answer text None default.
End Interpreter.

End OutputParser.

(** ** fastapi/src/rag/file_loader.py *)

Module FileLoader.

Record Document : Type := Doc {
  page_content : string;
  metadata : list (string * string)
}.

Fixpoint remove_non_utf8_characters (text : string) : string :=
  match text with
  | EmptyString => EmptyString
  | String char text' =>
      if Str.ord char <? 128
      then String char (remove_non_utf8_characters text')
      else remove_non_utf8_characters text'
  end.

Definition clean (doc : Document) : Document :=
  Doc (remove_non_utf8_characters (page_content doc)) (metadata doc).

(** The two values that [Loader.__init__] lets through. *)
Inductive file_type : Type := pdf | html.

Definition file_type_name (ft : file_type) : string :=
  match ft with pdf => "pdf" | html => "html" end.

Record TextSplitter : Type := Splitter {
  separators : list string;
  chunk_size : Z;
  chunk_overlap : Z
}.

Definition default_separators : list string :=
  [Str.nl +:+ Str.nl; Str.nl; " "; ""].

(** [Loader(file_type)] with the default [split_kwargs]. *)
Record Loader : Type := MkLoader {
  loader_file_type : file_type;
  doc_spltter : TextSplitter
}.

Definition new_Loader (ft : file_type) : Loader :=
  MkLoader ft (Splitter default_separators 300 0).

(** [glob.has_magic]: the characters that make a pattern of a path. *)
Definition has_magic (s : string) : bool :=
  Str.contains_char "*" s || Str.contains_char "?" s
  || Str.contains_char "[" s.

Fixpoint rstrip_sep (s : string) : string :=
  match s with
  | EmptyString => EmptyString
  | String c s' =>
      match rstrip_sep s' with
      | EmptyString => if Ascii.eqb c "/" then EmptyString else String c EmptyString
      | t => String c t
      end
  end.

(** [os.path.split(dir_path + "/*." + ext)[0]]: the directory part of the
    pattern, its trailing separators dropped unless it holds nothing else. *)
Definition pattern_dirname (dir_path : string) : string :=
  let head := dir_path +:+ "/" in
  if Str.all (Ascii.eqb "/") head then head else rstrip_sep head.

(** What [glob] keeps of the entries of a directory for the pattern
    [*.ext]: the names that end in [.ext] and are not hidden. *)
Definition fnmatch_ext (ext name : string) : bool :=
  Str.endswith ("." +:+ ext) name && negb (Str.startswith "." name).

Section Host.
(** The collaborators outside the repository. *)
Variable PyPDFLoader_load : string -> result (list Document).
Variable BSHTMLLoader_load : string -> result (list Document).
Variable split_documents :
  list string -> Z -> Z -> list Document -> list Document.
Variable cpu_count : Z.
(** The order in which [imap_unordered] hands the files' results back. *)
Variable completion_order : list string -> list string.
(** The names of the entries of a directory. *)
Variable listdir : string -> list string.
(** The directories of the host that a directory pattern with magic
    characters matches ([glob]'s own expansion of the pattern). *)
Variable iglob_dirs : string -> list string.

Definition load_pdf (pdf_file : string) : result (list Document) :=
  docs ← PyPDFLoader_load pdf_file;
  mret (map clean docs).

Definition load_html (html_file : string) : result (list Document) :=
  docs ← BSHTMLLoader_load html_file;
  mret (map clean docs).

Definition get_num_cpu : Z := cpu_count.

(** [for result in pool.imap_unordered(f, files): doc_loaded.extend(result)] *)
Fixpoint extend_all (f : string -> result (list Document))
    (files : list string) (doc_loaded : list Document)
    : result (list Document) :=
  match files with
  | [] => mret doc_loaded
  | file :: files' =>
      r ← f file;
      extend_all f files' (doc_loaded ++ r)
  end.

(** [PDFLoader.__call__] and [HTMLLoader.__call__]; a pool of fewer
    than one process is refused by [multiprocessing.Pool]. *)
Definition call_loader (f : string -> result (list Document))
    (files : list string) (workers : Z) : result (list Document) :=
  let num_processes := Z.min get_num_cpu workers in
  if num_processes <? 1
  then Raise (ValueError "Number of processes must be at least 1")
  else extend_all f (completion_order files) [].

Definition doc_loader (ft : file_type)
    : list string -> Z -> result (list Document) :=
  match ft with
  | pdf => call_loader load_pdf
  | html => call_loader load_html
  end.

(** [TextSplitter.__call__] *)
Definition split (ts : TextSplitter) (documents : list Document)
    : list Document :=
  split_documents (separators ts) (chunk_size ts) (chunk_overlap ts)
    documents.

(** [Loader.load] *)
Definition load (self : Loader) (pdf_files : list string) (workers : Z)
    : result (list Document) :=
  doc_loaded ← doc_loader (loader_file_type self) pdf_files workers;
  mret (split (doc_spltter self) doc_loaded).

(** The directories that [glob.glob(dir_path + "/*." + ext)] lists: the
    directory part of the pattern itself, or, when that part holds a magic
    character, every directory that it matches as a pattern. *)
Definition glob_dirs (dir_path : string) : list string :=
  let dirname := pattern_dirname dir_path in
  if has_magic dirname then iglob_dirs dirname else [dirname].

(** [glob.glob(dir_path + "/*." + ext)] *)
Definition glob (dir_path ext : string) : list string :=
  concat
    (map (fun dirname =>
            map (Posixpath.join dirname)
              (List.filter (fnmatch_ext ext) (listdir dirname)))
       (glob_dirs dir_path)).

Definition no_files_message (self : Loader) (dir_path : string) : string :=
  "No " +:+ file_type_name (loader_file_type self) +:+ " files found in "
  +:+ dir_path.

(** [Loader.load_dir] *)
Definition load_dir (self : Loader) (dir_path : string) (workers : Z)
    : result (list Document) :=
  match loader_file_type self with
  | pdf =>
      let files := glob dir_path "pdf" in
      if Z.of_nat (length files) >? 0
      then load self files workers
      else Raise (AssertionError (no_files_message self dir_path))
  | html =>
      let files := glob dir_path "html" in
      if Z.of_nat (length files) >? 0
      then load self files workers
      else Raise (AssertionError (no_files_message self dir_path))
  end.
End Host.

End FileLoader.

(** ** The vocabulary of the specification *)

(** [m] occurs in [text] between [pre] and [post], and nowhere further to
    the left. *)
Definition first_occurrence (m text pre post : string) : Prop :=
  text = pre +:+ m +:+ post
  /\ forall pre' post', text = pre' +:+ m +:+ post' ->
                        (String.length pre <= String.length pre')%nat.

(** [m] occurs nowhere in [text]. *)
Definition absent (m text : string) : Prop :=
  forall pre post, text <> pre +:+ m +:+ post.

(** A pattern matches somewhere in a text. *)
Definition pattern_matches (pattern : Re.regex) (text : string) : Prop :=
  is_Some (Re.search pattern text Re.DOTALL).

(** The language of [[A-Za-z0-9_-]+]: one character or more, each a letter,
    a digit, a hyphen or an underscore. *)
Definition identifier (s : string) : Prop :=
  s <> "" /\ Str.all History.id_char s = true.

(** [path] names an entry of the directory [base_dir] itself: the directory,
    a separator when the directory's name does not end in one, and a single
    component that is neither [.] nor [..]. *)
Definition directly_inside (base_dir path : string) : Prop :=
  exists name,
    (path = base_dir +:+ "/" +:+ name
     \/ ((base_dir = "" \/ Str.endswith "/" base_dir = true)
         /\ path = base_dir +:+ name))
    /\ Str.contains_char "/" name = false
    /\ name <> "." /\ name <> "..".

(** What a read leaves of the turns it finds. *)
Definition kept (max_history_length : Z) (turns : list message)
    : list message :=
  if Z.of_nat (length turns) >? max_history_length
  then slice_from (- max_history_length) turns
  else turns.

(** Every stored session record holds at most [max_history_length] turns. *)
Definition within_max (max_history_length : Z) (turns : list message) : Prop :=
  Z.of_nat (length turns) <= max_history_length.

(** A host with two sibling directories: [p[1]], which holds [notes.txt]
    only, and [p1], which holds [a.pdf].  Read as a pattern, [p[1]] matches
    the directory [p1] and nothing else. *)
Definition bracket_listdir (dirname : string) : list string :=
  if String.eqb dirname "p[1]" then ["notes.txt"]
  else if String.eqb dirname "p1" then ["a.pdf"]
  else [].

Definition bracket_iglob_dirs (pattern : string) : list string :=
  if String.eqb pattern "p[1]" then ["p1"] else [].

(** The first line of a text: what stands before its first newline. *)
Definition first_line (s : string) : string :=
  Str.take (Str.span (fun c => negb (Ascii.eqb c "010")) s) s.

(** [out] is a contiguous part of [text]. *)
Definition part_of (out text : string) : Prop :=
  exists pre post, text = pre +:+ out +:+ post.

(** Every character of the text is a code point below 128. *)
Definition ascii_only (s : string) : bool :=
  Str.all (fun c => Str.ord c <? 128) s.

(** ** fastapi/src/rag/rag.py, the chain *)

Module RAG.

(** [RAG._format_docs]: the contents of the documents, a blank line between
    one and the next. *)
Definition _format_docs (docs : list FileLoader.Document) : string :=
  Str.join (Str.nl +:+ Str.nl) (map FileLoader.page_content docs).

End RAG.

(** * Properties *)

(** ** Strings *)

Section StringFacts.
Implicit Types s t u : string.

Lemma app_cons c s t : String c s +:+ t = String c (s +:+ t).
Proof. reflexivity. Qed.

Lemma app_empty_l s : "" +:+ s = s.
Proof. reflexivity. Qed.

Lemma app_empty_r s : s +:+ "" = s.
Proof. induction s as [|c s IH]; [done|]. by rewrite app_cons, IH. Qed.

Lemma app_assoc_str s t u : (s +:+ t) +:+ u = s +:+ (t +:+ u).
Proof. induction s as [|c s IH]; [done|]. by rewrite !app_cons, IH. Qed.

Lemma length_app_str s t :
  String.length (s +:+ t) = (String.length s + String.length t)%nat.
Proof. induction s as [|c s IH]; [done|]. rewrite app_cons. simpl. by rewrite IH. Qed.

Lemma startswith_app m s : Str.startswith m (m +:+ s) = true.
Proof.
  induction m as [|c m IH]; [done|].
  rewrite app_cons. simpl. by rewrite Ascii.eqb_refl, IH.
Qed.

Lemma startswith_inv m s :
  Str.startswith m s = true -> s = m +:+ Str.drop (String.length m) s.
Proof.
  revert s. induction m as [|c m IH]; intros [|a s] H; simpl in *; try done.
  apply andb_true_iff in H as [Hc Hm]. apply Ascii.eqb_eq in Hc as ->.
  rewrite app_cons. f_equal. by apply IH.
Qed.

Lemma drop_app_length m s : Str.drop (String.length m) (m +:+ s) = s.
Proof. induction m as [|c m IH]; [by destruct s|]. by rewrite app_cons. Qed.

Lemma take_drop_str n s : Str.take n s +:+ Str.drop n s = s.
Proof.
  revert s. induction n as [|n IH]; intros [|c s]; simpl; try done.
  by rewrite app_cons, IH.
Qed.

Lemma take_all_str s : Str.take (String.length s) s = s.
Proof. induction s as [|c s IH]; [done|]. simpl. by rewrite IH. Qed.

Lemma take_add_length s n : Str.take (n + String.length s - n) s = s.
Proof. replace (n + String.length s - n)%nat with (String.length s) by lia. apply take_all_str. Qed.

Lemma drop_span_lstrip s : Str.drop (Str.span Str.isspace s) s = Str.lstrip s.
Proof. induction s as [|c s IH]; [done|]. simpl. by destruct (Str.isspace c). Qed.

Lemma all_take_span p s : Str.all p (Str.take (Str.span p s) s) = true.
Proof. induction s as [|c s IH]; [done|]. simpl. destruct (p c) eqn:E; [|done]. simpl. by rewrite E, IH. Qed.

Lemma length_lstrip s : (String.length (Str.lstrip s) <= String.length s)%nat.
Proof. induction s as [|c s IH]; [done|]. simpl. destruct (Str.isspace c); simpl; lia. Qed.

Lemma length_rstrip s : (String.length (Str.rstrip s) <= String.length s)%nat.
Proof.
  induction s as [|c s IH]; [done|]. simpl.
  destruct (Str.rstrip s); [destruct (Str.isspace c)|]; simpl in *; lia.
Qed.

Lemma length_strip s : (String.length (Str.strip s) <= String.length s)%nat.
Proof. unfold Str.strip. etrans; [apply length_rstrip|apply length_lstrip]. Qed.

Lemma lstrip_idem s : Str.lstrip (Str.lstrip s) = Str.lstrip s.
Proof. induction s as [|c s IH]; [done|]. simpl. destruct (Str.isspace c) eqn:E; [done|]. simpl. by rewrite E. Qed.

Lemma strip_lstrip s : Str.strip (Str.lstrip s) = Str.strip s.
Proof. unfold Str.strip. by rewrite lstrip_idem. Qed.
End StringFacts.

(** ** First occurrences *)

Section Occurrences.
Implicit Types m s pre post : string.

Lemma after_unfold m s :
  Str.after m s =
    if Str.startswith m s then Some (Str.drop (String.length m) s)
    else match s with
         | EmptyString => None
         | String _ s' => Str.after m s'
         end.
Proof. by destruct s. Qed.

Lemma first_occurrence_here m post : first_occurrence m (m +:+ post) "" post.
Proof. split; [done|]. intros; simpl; lia. Qed.

Lemma first_occurrence_tail m c s pre post :
  first_occurrence m (String c s) (String c pre) post ->
  first_occurrence m s pre post.
Proof.
  intros [Heq Hmin]. rewrite app_cons in Heq. split; [congruence|].
  intros pre' post' H.
  specialize (Hmin (String c pre') post'). rewrite app_cons in Hmin.
  simpl in Hmin. apply le_S_n, Hmin. by rewrite H.
Qed.

Lemma after_first_occurrence m s pre post :
  first_occurrence m s pre post -> Str.after m s = Some post.
Proof.
  revert s. induction pre as [|c pre IH]; intros s H.
  - destruct H as [-> _]. rewrite app_empty_l, after_unfold.
    by rewrite startswith_app, drop_app_length.
  - pose proof H as [Heq Hmin]. rewrite app_cons in Heq. subst s.
    rewrite after_unfold.
    destruct (Str.startswith m _) eqn:E.
    + apply startswith_inv in E.
      specialize (Hmin "" _ E). simpl in Hmin. lia.
    + by apply IH, first_occurrence_tail with c.
Qed.

Lemma after_Some m s post :
  Str.after m s = Some post -> exists pre, first_occurrence m s pre post.
Proof.
  revert post. induction s as [|c s IH]; intros post; rewrite after_unfold;
    destruct (Str.startswith m _) eqn:E; intros H; simplify_eq.
  - exists "". apply startswith_inv in E. rewrite E at 1.
    apply first_occurrence_here.
  - exists "". apply startswith_inv in E. rewrite E at 1.
    apply first_occurrence_here.
  - destruct (IH _ H) as (pre & -> & Hmin). exists (String c pre).
    split; [done|]. intros [|a pre'] post' Heq.
    + rewrite app_empty_l in Heq. rewrite Heq, startswith_app in E. done.
    + rewrite !app_cons in Heq. simplify_eq. simpl.
      apply le_n_S, (Hmin _ post'). done.
Qed.

Lemma after_None m s : Str.after m s = None <-> absent m s.
Proof.
  split.
  - induction s as [|c s IH]; rewrite after_unfold;
      destruct (Str.startswith m _) eqn:E; intros H; simplify_eq;
      intros [|a pre] post Heq.
    + rewrite app_empty_l in Heq. by rewrite Heq, startswith_app in E.
    + by rewrite app_cons in Heq.
    + rewrite app_empty_l in Heq. by rewrite Heq, startswith_app in E.
    + rewrite app_cons in Heq. simplify_eq. by apply (IH H pre post).
  - intros Habs. destruct (Str.after m s) as [post|] eqn:E; [|done].
    apply after_Some in E as (pre & Heq & _). by destruct (Habs pre post).
Qed.

Lemma after_length m s post :
  Str.after m s = Some post ->
  (String.length m + String.length post <= String.length s)%nat.
Proof.
  intros (pre & -> & _)%after_Some. rewrite !length_app_str. lia.
Qed.
End Occurrences.

(** ** The matcher *)

Section EngineFacts.
Context {A : Type}.
Implicit Types (c : Re.cursor) (k : Re.cursor -> option A) (p : ascii -> bool).

Lemma advance_0 c : Re.advance 0 c = c.
Proof. destruct c as [i s g]. unfold Re.advance. simpl. by rewrite Nat.add_0_r; destruct s. Qed.

Lemma advance_step i a s g j :
  Re.advance j (Re.Cursor (S i) s g) = Re.advance (S j) (Re.Cursor i (String a s) g).
Proof. unfold Re.advance. simpl. by rewrite Nat.add_succ_r. Qed.

Lemma step1_empty p i g k : Re.step1 p (Re.Cursor i "" g) k = None.
Proof. reflexivity. Qed.

Lemma step1_cons p i a s g k :
  Re.step1 p (Re.Cursor i (String a s) g) k =
    if p a then k (Re.Cursor (S i) s g) else None.
Proof. reflexivity. Qed.

Lemma run_Lit fl m r c k :
  Re.run fl (Re.Lit m r) c k =
    if Str.startswith m (Re.rest c)
    then Re.run fl r (Re.advance (String.length m) c) k
    else None.
Proof.
  revert c. induction m as [|a m IH]; intros [i s g].
  - by rewrite advance_0.
  - cbn [Re.Lit Re.run Re.rest]. destruct s as [|b s]; [done|].
    rewrite step1_cons. simpl Str.startswith.
    destruct (Ascii.eqb a b) eqn:E; simpl; [|done].
    apply Ascii.eqb_eq in E as ->. by rewrite IH, advance_step with (a := b).
Qed.

(** Greedy repetition of a one-character test: the longest run of
    accepted characters wins when the continuation accepts it. *)
Lemma star_greedy p n c k x :
  (String.length (Re.rest c) <= n)%nat ->
  k (Re.advance (Str.span p (Re.rest c)) c) = Some x ->
  Re.star_loop (Re.step1 p) n c k = Some x.
Proof.
  revert c. induction n as [|n IH]; intros [i s g] Hn Hk;
    cbn [Re.star_loop Re.rest Re.pos] in *.
  - destruct s; simpl in Hn; [|lia]. by rewrite advance_0 in Hk.
  - destruct s as [|a s].
    + rewrite step1_empty. by rewrite advance_0 in Hk.
    + rewrite step1_cons. simpl in Hn, Hk. destruct (p a).
      * cbn [Re.pos].
        assert ((i <? S i)%nat = true) as -> by (apply Nat.ltb_lt; lia).
        rewrite (IH (Re.Cursor (S i) s g)); [done|simpl; lia|].
        by rewrite (advance_step _ a).
      * by rewrite advance_0 in Hk.
Qed.

(** It fails when the continuation refuses every shorter run too. *)
Lemma star_refused p n c k :
  (forall j, (j <= Str.span p (Re.rest c))%nat -> k (Re.advance j c) = None) ->
  Re.star_loop (Re.step1 p) n c k = None.
Proof.
  revert c. induction n as [|n IH]; intros [i s g] Hk;
    cbn [Re.star_loop Re.rest Re.pos] in *.
  - rewrite <- (advance_0 (Re.Cursor i s g)). apply Hk. lia.
  - assert (k (Re.Cursor i s g) = None) as H0.
    { rewrite <- (advance_0 (Re.Cursor i s g)). apply Hk. lia. }
    destruct s as [|a s]; [by rewrite step1_empty|].
    rewrite step1_cons. simpl in Hk. destruct (p a); [|done].
    cbn [Re.pos].
    assert ((i <? S i)%nat = true) as -> by (apply Nat.ltb_lt; lia).
    rewrite (IH (Re.Cursor (S i) s g)); [done|]. intros j Hj.
    rewrite (advance_step _ a). apply Hk. simpl in *. lia.
Qed.
End EngineFacts.

Lemma span_dotall s : Str.span (Re.dot_accepts Re.DOTALL) s = String.length s.
Proof. induction s as [|c s IH]; [done|]. simpl. by rewrite IH. Qed.

Lemma drop_all_str s : Str.drop (String.length s) s = "".
Proof. induction s as [|c s IH]; [done|]. done. Qed.

(** A group that takes every remaining character, under [DOTALL]. *)
Lemma run_group_rest c :
  Re.run Re.DOTALL (Re.Grp (Re.Star Re.Dot)) c Some
  = Some (Re.Cursor (Re.pos c + String.length (Re.rest c)) "" (Some (Re.rest c))).
Proof.
  destruct c as [i s g]. simpl.
  erewrite star_greedy; [done|done|].
  rewrite span_dotall. unfold Re.advance. simpl.
  by rewrite drop_all_str, take_add_length.
Qed.

Lemma match_at_marker m i s :
  Re.match_at Re.DOTALL (Re.Lit m (Re.Grp (Re.Star Re.Dot))) i s =
    if Str.startswith m s
    then Some (Re.Cursor (i + String.length s) ""
                 (Some (Str.drop (String.length m) s)))
    else None.
Proof.
  unfold Re.match_at. rewrite run_Lit. cbn [Re.rest].
  destruct (Str.startswith m s) eqn:E; [|done].
  rewrite run_group_rest. unfold Re.advance. simpl. do 2 f_equal.
  apply startswith_inv in E. rewrite E at 2. rewrite length_app_str. lia.
Qed.

Lemma length_take_span p s :
  String.length (Str.take (Str.span p s) s) = Str.span p s.
Proof.
  induction s as [|c s IH]; [done|]. simpl.
  destruct (p c); [|done]. simpl. by rewrite IH.
Qed.

Lemma span_length p s :
  (Str.span p s + String.length (Str.drop (Str.span p s) s))%nat
  = String.length s.
Proof.
  pose proof (f_equal String.length (take_drop_str (Str.span p s) s)) as H.
  by rewrite length_app_str, length_take_span in H.
Qed.

(** Any whitespace, then a group that takes every remaining character. *)
Lemma run_space_group_rest c :
  Re.run Re.DOTALL
    (Re.Cat (Re.Star (Re.Cls Str.isspace)) (Re.Grp (Re.Star Re.Dot))) c Some
  = Some (Re.Cursor (Re.pos c + String.length (Re.rest c)) ""
            (Some (Str.lstrip (Re.rest c)))).
Proof.
  change (Re.run Re.DOTALL (Re.Cat ?r1 ?r2) c Some) with
    (Re.star_loop (Re.step1 Str.isspace) (String.length (Re.rest c)) c
       (fun c' => Re.run Re.DOTALL r2 c' Some)).
  apply star_greedy; [done|].
  rewrite run_group_rest. unfold Re.advance. cbn [Re.pos Re.rest].
  rewrite drop_span_lstrip. do 2 f_equal.
  rewrite <- drop_span_lstrip, <- Nat.add_assoc. f_equal. apply span_length.
Qed.

Lemma match_at_answer i s :
  Re.match_at Re.DOTALL Rag.answer_pattern i s =
    if Str.startswith "Answer:" s
    then Some (Re.Cursor (i + String.length s) ""
                 (Some (Str.lstrip (Str.drop (String.length "Answer:") s))))
    else None.
Proof.
  unfold Re.match_at, Rag.answer_pattern. rewrite run_Lit.
  cbn [Re.rest]. destruct (Str.startswith "Answer:" s) eqn:E; [|done].
  rewrite run_space_group_rest. unfold Re.advance. cbn [Re.pos Re.rest].
  do 2 f_equal. apply startswith_inv in E. rewrite E at 2.
  rewrite length_app_str. lia.
Qed.

(** [re.search] with a pattern that, wherever its literal head [m] stands,
    matches through to the end of the subject: the match is at the first
    occurrence of [m]. *)
Lemma search_from_first fl pat m (g : string -> string) :
  (forall i s, Re.match_at fl pat i s =
     if Str.startswith m s
     then Some (Re.Cursor (i + String.length s) ""
                  (Some (g (Str.drop (String.length m) s))))
     else None) ->
  forall i s, Re.search_from fl pat i s =
    (fun post => Re.Cursor (i + String.length s) "" (Some (g post)))
      <$> Str.after m s.
Proof.
  intros Hat i s. revert i. induction s as [|c s IH]; intros i;
    simpl Re.search_from; rewrite Hat, after_unfold;
    destruct (Str.startswith m _); try done.
  rewrite IH. simpl. by rewrite Nat.add_succ_r.
Qed.
(** ** The answer extractors *)

Lemma search_answer text :
  Re.search Rag.answer_pattern text Re.DOTALL =
    (fun post => Re.Cursor (String.length text) "" (Some (Str.lstrip post)))
      <$> Str.after "Answer:" text.
Proof.
  unfold Re.search.
  by rewrite (search_from_first _ _ "Answer:" Str.lstrip match_at_answer).
Qed.

Lemma search_marker m text :
  Re.search (Re.Lit m (Re.Grp (Re.Star Re.Dot))) text Re.DOTALL =
    (fun post => Re.Cursor (String.length text) "" (Some post))
      <$> Str.after m text.
Proof.
  unfold Re.search.
  by rewrite (search_from_first _ _ m id (match_at_marker m)).
Qed.

(** A marker pattern matches exactly the texts that hold the marker. *)
Lemma pattern_matches_marker m text :
  pattern_matches (Re.Lit m (Re.Grp (Re.Star Re.Dot))) text <-> ~ absent m text.
Proof.
  unfold pattern_matches. rewrite search_marker, <- after_None.
  destruct (Str.after m text); simpl; split.
  - by intros _ ?.
  - by eexists.
  - by intros [? ?].
  - by intros [].
Qed.

(** The helper of the interface package is another function: no [DOTALL],
    and a fixed text when the marker is missing. *)
Example utils_extract_answer_differs :
  Utils.extract_answer "Paris" Rag.answer_pattern = Ok "Answer not found."
  /\ Utils.extract_answer ("Answer: a" +:+ Str.nl +:+ "b") Rag.answer_pattern
     = Ok "a"
  /\ Rag._extract_answer ("Answer: a" +:+ Str.nl +:+ "b") Rag.answer_pattern
     = Ok ("a" +:+ Str.nl +:+ "b").
Proof. by vm_compute. Qed.

(** [recursive_extract] returns for the marker patterns when the
    interpreter allows more nested calls than the text has characters:
    every round works on a strictly shorter text. *)
Lemma recursive_extract_depth_total m depth text d :
  m <> "" -> (String.length text < depth)%nat ->
  exists t, OutputParser.recursive_extract_depth depth text
              (Re.Lit m (Re.Grp (Re.Star Re.Dot))) d = Ok t.
Proof.
  intros Hm. revert text d. induction depth as [|depth IH]; intros text d Hlt;
    [lia|].
  cbn [OutputParser.recursive_extract_depth]. rewrite search_marker.
  destruct (Str.after m text) as [post|] eqn:E; simpl; [|by eexists].
  apply IH. apply after_length in E.
  pose proof (length_strip post). destruct m; [done|]. simpl in *. lia.
Qed.

Lemma recursive_extract_no_match depth text pattern d :
  (1 <= depth)%nat ->
  ~ pattern_matches pattern text ->
  OutputParser.recursive_extract depth text pattern d = Ok d.
Proof.
  unfold pattern_matches, OutputParser.recursive_extract. intros Hd H.
  destruct depth as [|depth]; [lia|].
  cbn [OutputParser.recursive_extract_depth].
  destruct (Re.search pattern text Re.DOTALL); [|done].
  destruct H. by eexists.
Qed.

(** Markers nested deeper than the interpreter allows make the call raise. *)
Example recursive_extract_raises_past_depth :
  let text := Str.nl +:+ "Assistant: a " +:+ Str.nl +:+ "Assistant: b" in
  OutputParser.recursive_extract 2 text OutputParser.assistant_pattern
    OutputParser.default = Raise RecursionError
  /\ OutputParser.recursive_extract 3 text OutputParser.assistant_pattern
       OutputParser.default = Ok "b".
Proof. by vm_compute. Qed.

(** The two ways a round of the loop of Variant B ends. *)
Lemma loop_body_keeps depth v pattern :
  OutputParser.recursive_extract depth (OutputParser.input_text v) pattern
    (OutputParser.default_answer v) = Ok (OutputParser.default_answer v) ->
  OutputParser.loop_body depth v pattern =
    Ok (OutputParser.Vars (OutputParser.input_text v)
          (OutputParser.default_answer v)
          (Some (OutputParser.default_answer v))).
Proof.
  intros H. unfold OutputParser.loop_body. rewrite H. simpl.
  by rewrite String.eqb_refl.
Qed.

Lemma loop_body_narrows depth v pattern out :
  OutputParser.recursive_extract depth (OutputParser.input_text v) pattern
    (OutputParser.default_answer v) = Ok out ->
  out <> OutputParser.default_answer v ->
  OutputParser.loop_body depth v pattern
  = Ok (OutputParser.Vars out out (Some out)).
Proof.
  intros H Hne. unfold OutputParser.loop_body. rewrite H. simpl.
  apply String.eqb_neq in Hne. by rewrite Hne.
Qed.

(** C6. Variant B, where the interpreter allows the call at all: a text
    that neither marker pattern matches yields the fixed fallback; the text
    [\nAssistant: 42], two calls deep, yields [42]. *)
Theorem chat_extractor_fallback (depth : nat) (text : string) :
  ((1 <= depth)%nat ->
   ~ pattern_matches OutputParser.assistant_pattern text ->
   ~ pattern_matches OutputParser.ai_pattern text ->
   OutputParser.parse depth text = Ok OutputParser.default)
  /\ ((2 <= depth)%nat ->
      OutputParser.parse depth (Str.nl +:+ "Assistant: 42") = Ok "42").
Proof.
  split.
  - intros Hd H1 H2. unfold OutputParser.parse, OutputParser._extract_answer.
    cbn [OutputParser.for_patterns].
    rewrite loop_body_keeps by (by apply recursive_extract_no_match).
    cbn [mbind result_bind OutputParser.input_text OutputParser.default_answer].
    rewrite loop_body_keeps by (by apply recursive_extract_no_match).
    done.
  - intros Hd. destruct depth as [|[|depth]]; [lia|lia|]. by vm_compute.
Qed.

Lemma chat_extractor_fallback_witness :
  (1 <= 1000)%nat
  /\ ~ pattern_matches OutputParser.assistant_pattern "I do not know"
  /\ ~ pattern_matches OutputParser.ai_pattern "I do not know"
  /\ OutputParser.parse 1000 "I do not know" = Ok OutputParser.default
  /\ OutputParser.parse 1000 (Str.nl +:+ "Assistant: 42") = Ok "42".
Proof.
  assert (1 <= 1000)%nat as Hd1 by lia.
  assert (2 <= 1000)%nat as Hd2 by lia.
  assert (~ pattern_matches OutputParser.assistant_pattern "I do not know") as H1.
  { unfold pattern_matches. vm_compute. by intros [? ?]. }
  assert (~ pattern_matches OutputParser.ai_pattern "I do not know") as H2.
  { unfold pattern_matches. vm_compute. by intros [? ?]. }
  exact (conj Hd1 (conj H1 (conj H2
    (conj (proj1 (chat_extractor_fallback 1000 "I do not know") Hd1 H1 H2)
          (proj2 (chat_extractor_fallback 1000 "I do not know") Hd2))))).
Defined.

(** C7, as amended. Variant B on a text that the first pattern matches: the
    first pass returns a text whenever the interpreter allows more nested
    calls than the text has characters; and whenever it returns a text that
    is not the fallback itself and that the second pattern does not match,
    that text is the answer. *)
Theorem chat_extractor_keeps_first_pattern_text (depth : nat) (text : string) :
  pattern_matches OutputParser.assistant_pattern text ->
  ((String.length text < depth)%nat ->
   exists t1,
     OutputParser.recursive_extract depth text OutputParser.assistant_pattern
       OutputParser.default = Ok t1)
  /\ (forall t1,
        OutputParser.recursive_extract depth text
          OutputParser.assistant_pattern OutputParser.default = Ok t1 ->
        t1 <> OutputParser.default ->
        ~ pattern_matches OutputParser.ai_pattern t1 ->
        OutputParser.parse depth text = Ok t1).
Proof.
  intros _. split.
  - intros Hlen.
    by apply (recursive_extract_depth_total (Str.nl +:+ "Assistant:")).
  - intros t1 Hfirst Hne Hsecond.
    assert (1 <= depth)%nat as Hd by (destruct depth; [done|lia]).
    unfold OutputParser.parse, OutputParser._extract_answer.
    cbn [OutputParser.for_patterns].
    rewrite (loop_body_narrows _ _ _ t1) by done.
    cbn [mbind result_bind].
    rewrite loop_body_keeps by (by apply recursive_extract_no_match).
    done.
Qed.

Lemma chat_extractor_keeps_first_pattern_text_witness :
  pattern_matches OutputParser.assistant_pattern
    (Str.nl +:+ "Assistant: 42" +:+ Str.nl +:+ "thanks")
  /\ OutputParser.recursive_extract 1000
       (Str.nl +:+ "Assistant: 42" +:+ Str.nl +:+ "thanks")
       OutputParser.assistant_pattern OutputParser.default
     = Ok ("42" +:+ Str.nl +:+ "thanks")
  /\ OutputParser.parse 1000
       (Str.nl +:+ "Assistant: 42" +:+ Str.nl +:+ "thanks")
     = Ok ("42" +:+ Str.nl +:+ "thanks").
Proof.
  assert (pattern_matches OutputParser.assistant_pattern
            (Str.nl +:+ "Assistant: 42" +:+ Str.nl +:+ "thanks")) as H1.
  { unfold pattern_matches. vm_compute. by eexists. }
  assert (OutputParser.recursive_extract 1000
            (Str.nl +:+ "Assistant: 42" +:+ Str.nl +:+ "thanks")
            OutputParser.assistant_pattern OutputParser.default
          = Ok ("42" +:+ Str.nl +:+ "thanks")) as H2 by (by vm_compute).
  split; [exact H1|]. split; [exact H2|].
  apply (proj2 (chat_extractor_keeps_first_pattern_text 1000 _ H1) _ H2).
  - by vm_compute.
  - unfold pattern_matches. vm_compute. by intros [? ?].
Defined.

(** C7, as stated, fails when the text left by the first pattern is the
    fallback: the second pattern then runs on the original text. *)
Lemma chat_extractor_first_pattern_counterexample :
  ~ (forall (depth : nat) (text t1 : string),
       pattern_matches OutputParser.assistant_pattern text ->
       OutputParser.recursive_extract depth text
         OutputParser.assistant_pattern OutputParser.default = Ok t1 ->
       ~ pattern_matches OutputParser.ai_pattern t1 ->
       OutputParser.parse depth text = Ok t1).
Proof.
  intros H.
  specialize (H 1000%nat
                (Str.nl +:+ "AI: hi" +:+ Str.nl +:+ "Assistant: "
                   +:+ OutputParser.default) OutputParser.default).
  assert (OutputParser.parse 1000
            (Str.nl +:+ "AI: hi" +:+ Str.nl +:+ "Assistant: "
               +:+ OutputParser.default)
          = Ok ("hi" +:+ Str.nl +:+ "Assistant: " +:+ OutputParser.default))
    as Hcode by (by vm_compute).
  rewrite Hcode in H.
  assert (Ok ("hi" +:+ Str.nl +:+ "Assistant: " +:+ OutputParser.default)
          = Ok OutputParser.default -> False) as Hne by (vm_compute; congruence).
  apply Hne, H.
  - unfold pattern_matches. vm_compute. by eexists.
  - by vm_compute.
  - unfold pattern_matches. vm_compute. by intros [? ?].
Qed.

(** ** The session identifier *)

Lemma id_char_not_newline a :
  History.id_char a = true -> Ascii.eqb a "010" = false.
Proof. destruct a as [[] [] [] [] [] [] [] []]; by vm_compute. Qed.

Lemma span_interior p j s :
  (j < Str.span p s)%nat ->
  exists a t, Str.drop j s = String a t /\ p a = true.
Proof.
  revert j. induction s as [|c s IH]; intros j Hj; simpl in Hj; [lia|].
  destruct (p c) eqn:E; [|lia].
  destruct j as [|j]; [by exists c, s|]. simpl. apply IH. lia.
Qed.

Lemma at_eol_interior j s :
  (j < Str.span History.id_char s)%nat -> Re.at_eol (Str.drop j s) = false.
Proof.
  intros (a & t & -> & Ha)%span_interior. simpl.
  destruct t; [by apply id_char_not_newline|done].
Qed.

(** The validator in closed form: a first accepted character, the longest
    run of accepted characters after it, and then the end of the string or
    one last newline. *)
Lemma is_valid_identifier_unfold s :
  History._is_valid_identifier s =
    match s with
    | EmptyString => false
    | String a s' =>
        History.id_char a
        && Re.at_eol (Str.drop (Str.span History.id_char s') s')
    end.
Proof.
  unfold History._is_valid_identifier, Re.match_, Re.match_at.
  destruct s as [|a s']; [done|].
  change (Re.run Re.NOFLAG History.valid_characters _ Some) with
    (Re.step1 History.id_char (Re.Cursor 0 (String a s') None)
       (fun c1 => Re.star_loop (Re.step1 History.id_char)
                    (String.length (Re.rest c1)) c1
                    (fun c' => if Re.at_eol (Re.rest c') then Some c' else None))).
  rewrite step1_cons. destruct (History.id_char a); [|done].
  cbn [Re.rest andb].
  destruct (Re.at_eol (Str.drop (Str.span History.id_char s') s')) eqn:E.
  - erewrite star_greedy; [done|done|]. unfold Re.advance. cbn [Re.rest].
    by rewrite E.
  - rewrite star_refused; [done|]. intros j Hj. unfold Re.advance.
    cbn [Re.rest] in *.
    destruct (decide (j = Str.span History.id_char s')) as [->|Hne].
    + by rewrite E.
    + rewrite at_eol_interior; [done|lia].
Qed.

Lemma at_eol_inv s : Re.at_eol s = true -> s = "" \/ s = Str.nl.
Proof.
  destruct s as [|c [|? ?]]; simpl; intros H; try done; [by left|].
  right. by apply Ascii.eqb_eq in H as ->.
Qed.

Lemma span_all p b t :
  Str.all p b = true ->
  (t = "" \/ exists c t', t = String c t' /\ p c = false) ->
  Str.span p (b +:+ t) = String.length b.
Proof.
  intros Hb Ht. induction b as [|a b IH]; simpl in *.
  - rewrite app_empty_l. destruct Ht as [->|(c & t' & -> & Hc)]; simpl; [done|].
    by rewrite Hc.
  - apply andb_true_iff in Hb as [Ha Hb]. by rewrite Ha, IH.
Qed.

(** The identifiers of the specification are accepted, and so is every one
    of them followed by one newline; nothing else is. *)
Lemma is_valid_identifier_spec s :
  History._is_valid_identifier s = true <->
  exists body, identifier body /\ (s = body \/ s = body +:+ Str.nl).
Proof.
  rewrite is_valid_identifier_unfold. split.
  - destruct s as [|a s']; [done|]. intros [Ha Heol]%andb_true_iff.
    exists (String a (Str.take (Str.span History.id_char s') s')). split.
    + split; [done|]. simpl. by rewrite Ha, all_take_span.
    + rewrite app_cons.
      pose proof (take_drop_str (Str.span History.id_char s') s') as Hsplit.
      destruct (at_eol_inv _ Heol) as [E | E]; rewrite E in Hsplit;
        [left|right]; [|by rewrite Hsplit].
      rewrite app_empty_r in Hsplit. by rewrite Hsplit.
  - intros ([|a b] & [Hne Hall] & Hs); [done|]. simpl in Hall.
    apply andb_true_iff in Hall as [Ha Hb].
    destruct Hs as [-> | ->]; [|rewrite app_cons]; rewrite Ha; simpl.
    + rewrite <- (app_empty_r b) at 1 2.
      rewrite span_all by auto. by rewrite drop_app_length.
    + rewrite span_all; [by rewrite drop_app_length|done|].
      right. by exists "010"%char, "".
Qed.

Lemma identifier_accepted s :
  identifier s -> History._is_valid_identifier s = true.
Proof. intros H. apply is_valid_identifier_spec. exists s. auto. Qed.

Lemma contains_char_app c s t :
  Str.contains_char c (s +:+ t) = Str.contains_char c s || Str.contains_char c t.
Proof.
  induction s as [|a s IH]; [done|]. rewrite app_cons. simpl.
  by rewrite IH, orb_assoc.
Qed.

Lemma all_excludes p c s :
  Str.all p s = true -> p c = false -> Str.contains_char c s = false.
Proof.
  intros Hall Hc. induction s as [|a s IH]; [done|]. simpl in *.
  apply andb_true_iff in Hall as [Ha Hs]. rewrite (IH Hs), orb_false_r.
  destruct (Ascii.eqb a c) eqn:E; [|done]. apply Ascii.eqb_eq in E. congruence.
Qed.

(** An accepted identifier holds no character that the set refuses, the
    newline apart. *)
Lemma valid_identifier_excludes c s :
  History._is_valid_identifier s = true ->
  History.id_char c = false -> c <> "010"%char ->
  Str.contains_char c s = false.
Proof.
  intros (body & [_ Hall] & Hs)%is_valid_identifier_spec Hc Hnl.
  pose proof (all_excludes _ _ _ Hall Hc) as Hbody.
  destruct Hs as [-> | ->]; [done|].
  rewrite contains_char_app, Hbody. unfold Str.nl. cbn [Str.contains_char orb].
  rewrite orb_false_r. apply Ascii.eqb_neq. congruence.
Qed.
(** ** The history store *)

Section HistoryFacts.
Import FileChatMessageHistory.
Implicit Types (fs : files) (h : t) (l turns : list message).

Lemma messages_lookup h fs l : fs !! file_path h = Some l -> messages h fs = l.
Proof. unfold messages. by intros ->. Qed.

(** The loop that stores the kept messages again, one by one. *)
Lemma foldl_add_message h l fs :
  is_Some (fs !! file_path h) ->
  foldl (fun fs message => add_message h message fs) fs l
  = <[file_path h := messages h fs ++ l]> fs.
Proof.
  revert fs. induction l as [|m l IH]; intros fs [old Hold]; simpl.
  - rewrite (messages_lookup _ _ _ Hold), app_nil_r. symmetry.
    by apply insert_id.
  - rewrite IH by (unfold add_message; rewrite lookup_insert_eq; eauto).
    unfold add_message.
    rewrite (messages_lookup h (<[_:=_]> fs) (messages h fs ++ [m]))
      by apply lookup_insert_eq.
    by rewrite insert_insert_eq, <- app_assoc.
Qed.

Lemma slice_from_suffix (start : Z) l : slice_from start l `suffix_of` l.
Proof. unfold slice_from. eexists. symmetry. apply take_drop. Qed.

Lemma slice_from_last (n : Z) l :
  0 < n ->
  slice_from (- n) l = drop (length l - Z.to_nat n) l.
Proof.
  intros Hn. unfold slice_from.
  assert ((- n <? 0) = true) as -> by lia. f_equal. lia.
Qed.

Lemma kept_nil max : kept max [] = [].
Proof. unfold kept, slice_from. simpl. by destruct (_ >? _); [rewrite drop_nil|]. Qed.

Lemma kept_suffix max l : kept max l `suffix_of` l.
Proof. unfold kept. destruct (_ >? _); [apply slice_from_suffix|done]. Qed.

Lemma kept_within_max max l : 1 <= max -> within_max max (kept max l).
Proof.
  intros Hmax. unfold kept, within_max.
  destruct (_ >? _) eqn:E; [|lia].
  rewrite slice_from_last, length_drop by lia. lia.
Qed.

Lemma get_chat_history_invalid base max sid fs :
  History._is_valid_identifier sid = false ->
  History.get_chat_history base max sid fs
  = (Raise (HTTPException 400 (History.invalid_detail sid)), fs).
Proof. unfold History.get_chat_history. by intros ->. Qed.

(** A read of an accepted identifier leaves, as the session's record, what
    [kept] keeps of the turns that were there; the record is created when it
    was missing. *)
Lemma get_chat_history_valid base max sid fs :
  History._is_valid_identifier sid = true ->
  History.get_chat_history base max sid fs
  = (Ok (Make (History.session_path base sid)),
     <[History.session_path base sid :=
         kept max (default [] (History.stored base sid fs))]> fs).
Proof.
  intros Hsid. unfold History.get_chat_history, History.stored. rewrite Hsid.
  cbn [negb]. set (p := History.session_path base sid). unfold init.
  destruct (fs !! p) as [l|] eqn:E; simpl default.
  - rewrite (messages_lookup (Make p) fs l E). unfold kept.
    destruct (_ >? _).
    + rewrite foldl_add_message
        by (unfold clear; rewrite lookup_insert_eq; eauto).
      unfold clear at 2. cbn [file_path].
      rewrite (messages_lookup (Make p) (clear (Make p) fs) [])
        by apply lookup_insert_eq.
      by rewrite insert_insert_eq.
    + by rewrite insert_id.
  - rewrite (messages_lookup (Make p) (<[p:=[]]> fs) [])
      by apply lookup_insert_eq.
    rewrite kept_nil. destruct (_ >? _); [|done].
    assert (slice_from (- max) ([] : list message) = []) as ->
      by (unfold slice_from; apply drop_nil).
    cbn [foldl]. unfold clear. cbn [file_path]. by rewrite insert_insert_eq.
Qed.

Lemma stored_after_read base max sid fs :
  History._is_valid_identifier sid = true ->
  History.stored base sid (History.get_chat_history base max sid fs).2
  = Some (kept max (default [] (History.stored base sid fs))).
Proof.
  intros Hsid. rewrite get_chat_history_valid by done.
  unfold History.stored. cbn [snd]. apply lookup_insert_eq.
Qed.

(** Above a positive maximum the read keeps the most recent turns, in
    their order, and stores exactly those. *)
Lemma read_truncates_to_most_recent base max sid fs turns :
  History._is_valid_identifier sid = true ->
  0 < max ->
  History.stored base sid fs = Some turns ->
  max < Z.of_nat (length turns) ->
  exists recent,
    History.stored base sid (History.get_chat_history base max sid fs).2
    = Some recent
    /\ recent = drop (length turns - Z.to_nat max) turns
    /\ Z.of_nat (length recent) = max.
Proof.
  intros Hsid Hmax Hst Hlen.
  exists (drop (length turns - Z.to_nat max) turns).
  split; [|split; [reflexivity|]].
  - rewrite stored_after_read, Hst by done. simpl. unfold kept.
    assert ((Z.of_nat (length turns) >? max) = true) as -> by lia.
    by rewrite slice_from_last.
  - rewrite length_drop. lia.
Qed.
End HistoryFacts.

(** ** The claims about the session history *)

Section HistoryClaims.
Import FileChatMessageHistory.

(** The examples of the specification. *)
Example identifier_examples :
  History._is_valid_identifier "abc-123_1" = true
  /\ History._is_valid_identifier "abc 123" = false
  /\ History._is_valid_identifier "abc@123" = false.
Proof. by vm_compute. Qed.

(** A refused identifier: the client error, and the files as they were. *)
Lemma refused_identifier_raises base max sid fs :
  History._is_valid_identifier sid = false ->
  (History.get_chat_history base max sid fs).1
  = Raise (HTTPException 400 (History.invalid_detail sid))
  /\ (History.get_chat_history base max sid fs).2 = fs.
Proof. intros H. by rewrite get_chat_history_invalid. Qed.

(** Whatever is not an identifier, nor an identifier followed by one
    newline, is refused. *)
Lemma not_identifier_refused sid :
  (forall body, identifier body -> sid <> body /\ sid <> body +:+ Str.nl) ->
  History._is_valid_identifier sid = false.
Proof.
  intros H. apply not_true_is_false.
  intros (body & Hb & Hs)%is_valid_identifier_spec.
  destruct (H body Hb). by destruct Hs.
Qed.

(** C1. The string [abc] followed by a newline is not an identifier of
    the specification, and yet the validator accepts it: the read raises
    nothing and creates the session file. *)
Theorem newline_terminated_identifier_accepted (base : string) (max : Z) :
  let sid := "abc" +:+ Str.nl in
  ~ identifier sid
  /\ History._is_valid_identifier sid = true
  /\ History.get_chat_history base max sid ∅
     = (Ok (Make (History.session_path base sid)),
        {[ History.session_path base sid := [] ]}).
Proof.
  intros sid. split; [|split].
  - intros [_ H]. by vm_compute in H.
  - by vm_compute.
  - rewrite get_chat_history_valid by (by vm_compute).
    unfold History.stored. rewrite lookup_empty. simpl.
    by rewrite kept_nil, insert_empty.
Qed.

(** C2. With a maximum of zero, a read of a session of two turns stores
    both turns again instead of none. *)
Theorem read_with_max_zero_keeps_all (base : string) (t1 t2 : message) :
  let fs : files := {[ History.session_path base "s1" := [t1; t2] ]} in
  History.stored base "s1" fs = Some [t1; t2]
  /\ History.stored base "s1" (History.get_chat_history base 0 "s1" fs).2
     = Some [t1; t2].
Proof.
  intros fs.
  assert (History.stored base "s1" fs = Some [t1; t2]) as Hst
    by apply lookup_singleton_eq.
  split; [done|].
  rewrite stored_after_read by (by vm_compute). by rewrite Hst.
Qed.

(** C3, as amended. For a maximum of one or more: a read leaves, as the
    session's record, a suffix of the turns that were stored, of length at
    most the maximum; an append stores the turns that were there followed
    by the new one, and evicts nothing. *)
Theorem read_bounds_and_append_extends (base : string) (max : Z)
    (sid : string) (fs : files) (m : message) :
  1 <= max ->
  History._is_valid_identifier sid = true ->
  (exists turns,
      History.stored base sid (History.get_chat_history base max sid fs).2
      = Some turns
      /\ turns `suffix_of` default [] (History.stored base sid fs)
      /\ within_max max turns)
  /\ History.stored base sid
       (add_message (Make (History.session_path base sid)) m fs)
     = Some (default [] (History.stored base sid fs) ++ [m]).
Proof.
  intros Hmax Hsid. split.
  - eexists. split; [by apply stored_after_read|].
    split; [apply kept_suffix|by apply kept_within_max].
  - unfold History.stored, add_message, messages. cbn [file_path].
    apply lookup_insert_eq.
Qed.

Lemma read_bounds_and_append_extends_witness :
  let a := Message human "a" in
  let b := Message ai "b" in
  let c := Message human "c" in
  let fs : files := {[ History.session_path "h" "s1" := [a; b; c] ]} in
  (exists turns,
      History.stored "h" "s1" (History.get_chat_history "h" 2 "s1" fs).2
      = Some turns
      /\ turns `suffix_of` default [] (History.stored "h" "s1" fs)
      /\ within_max 2 turns)
  /\ History.stored "h" "s1"
       (add_message (Make (History.session_path "h" "s1")) a fs)
     = Some (default [] (History.stored "h" "s1" fs) ++ [a]).
Proof.
  intros a b c fs.
  apply (read_bounds_and_append_extends "h" 2 "s1" fs a).
  - lia.
  - by vm_compute.
Defined.

(** C3, as stated, fails: an append to a record that holds the maximum
    leaves one turn too many. *)
Lemma append_exceeds_max_counterexample :
  ~ (forall (base : string) (max : Z) (sid : string) (fs : files)
            (m : message) (turns turns' : list message),
       History._is_valid_identifier sid = true ->
       History.stored base sid fs = Some turns ->
       within_max max turns ->
       History.stored base sid
         (add_message (Make (History.session_path base sid)) m fs)
       = Some turns' ->
       within_max max turns').
Proof.
  intros H.
  set (a := Message human "a"). set (b := Message ai "b").
  specialize (H "h" 2 "s1" {[ History.session_path "h" "s1" := [a; b] ]}
                a [a; b] [a; b; a]).
  unfold within_max in H. simpl in H.
  assert (3 <= 2) as Habs; [|lia].
  apply H; [by vm_compute|apply lookup_singleton_eq|lia|].
  unfold History.stored, add_message, messages. cbn [file_path].
  by rewrite lookup_insert_eq, lookup_singleton_eq.
Qed.

(** C10. A read of a record that holds at most the maximum returns a
    history with those turns and leaves every file as it was. *)
Theorem read_within_max_writes_nothing (base : string) (max : Z)
    (sid : string) (fs : files) (turns : list message) :
  History._is_valid_identifier sid = true ->
  History.stored base sid fs = Some turns ->
  within_max max turns ->
  exists chat_hist,
    History.get_chat_history base max sid fs = (Ok chat_hist, fs)
    /\ messages chat_hist fs = turns.
Proof.
  intros Hsid Hst Hmax. exists (Make (History.session_path base sid)). split.
  - rewrite get_chat_history_valid, Hst by done. simpl. unfold kept.
    unfold within_max in Hmax.
    assert ((Z.of_nat (length turns) >? max) = false) as -> by lia.
    by rewrite insert_id.
  - by apply messages_lookup.
Qed.

Lemma read_within_max_writes_nothing_witness :
  let a := Message human "a" in
  let b := Message ai "b" in
  let fs : files := {[ History.session_path "h" "s1" := [a; b] ]} in
  exists chat_hist,
    History.get_chat_history "h" 6 "s1" fs = (Ok chat_hist, fs)
    /\ messages chat_hist fs = [a; b].
Proof.
  intros a b fs.
  apply (read_within_max_writes_nothing "h" 6 "s1" fs [a; b]).
  - by vm_compute.
  - apply lookup_singleton_eq.
  - unfold within_max. simpl. lia.
Defined.
Lemma startswith_char_contains c s :
  Str.startswith (String c "") s = true -> Str.contains_char c s = true.
Proof.
  destruct s as [|a s]; simpl; [done|]. rewrite andb_true_r.
  intros ->%Ascii.eqb_eq. by rewrite Ascii.eqb_refl.
Qed.

(** C4. The path of an accepted identifier is the direct join of the base
    directory and the identifier followed by [.json]; the identifier holds
    no separator and no dot, and the path names an entry of the base
    directory itself. *)
Theorem session_path_stays_in_base (base : string) (max : Z) (sid : string)
    (fs : files) :
  History._is_valid_identifier sid = true ->
  (History.get_chat_history base max sid fs).1
  = Ok (Make (Posixpath.join base (sid +:+ ".json")))
  /\ Str.contains_char "/" sid = false
  /\ Str.contains_char "." sid = false
  /\ directly_inside base (Posixpath.join base (sid +:+ ".json")).
Proof.
  intros Hsid.
  assert (Str.contains_char "/" sid = false) as Hsep
    by (by apply valid_identifier_excludes).
  assert (Str.contains_char "." sid = false) as Hdot
    by (by apply valid_identifier_excludes).
  split; [by rewrite get_chat_history_valid|]. do 2 (split; [done|]).
  assert (Str.contains_char "/" (sid +:+ ".json") = false) as Hname
    by (by rewrite contains_char_app, Hsep).
  exists (sid +:+ ".json"). split; [|split; [done|]].
  - unfold Posixpath.join.
    destruct (Str.startswith "/" (sid +:+ ".json")) eqn:E.
    { apply (startswith_char_contains "/") in E. congruence. }
    destruct (String.eqb base "" || Str.endswith "/" base) eqn:Eb;
      [right|by left].
    split; [|done]. apply orb_true_iff in Eb as [Eb|Eb]; [left|by right].
    by apply String.eqb_eq.
  - split; intros H%(f_equal String.length);
      rewrite length_app_str in H; simpl in H; lia.
Qed.

Lemma session_path_stays_in_base_witness :
  (History.get_chat_history "chat_histories" 6 "abc-123_1" ∅).1
  = Ok (Make "chat_histories/abc-123_1.json")
  /\ Str.contains_char "/" "abc-123_1" = false
  /\ Str.contains_char "." "abc-123_1" = false
  /\ directly_inside "chat_histories" "chat_histories/abc-123_1.json".
Proof.
  apply (session_path_stays_in_base "chat_histories" 6 "abc-123_1" ∅).
  by vm_compute.
Defined.
End HistoryClaims.

(** ** The loader *)

Lemma filter_all_false {A : Type} (f : A -> bool) (l : list A) :
  (forall x, x ∈ l -> f x = false) -> List.filter f l = [].
Proof.
  induction l as [|a l IH]; intros H; [done|]. simpl.
  rewrite (H a) by apply list_elem_of_here. apply IH.
  intros x Hx. apply H. by apply list_elem_of_further.
Qed.

Lemma fnmatch_ext_extension ext name :
  Str.endswith ("." +:+ ext) name = false ->
  FileLoader.fnmatch_ext ext name = false.
Proof. unfold FileLoader.fnmatch_ext. by intros ->. Qed.

(** C8. The directory [p[1]] holds no file that ends in [.pdf], and yet
    [load_dir] on it raises nothing: the path is read as a pattern, and the
    file of the sibling directory [p1] is loaded. *)
Theorem load_dir_reads_path_as_pattern :
  (forall name, name ∈ bracket_listdir "p[1]" ->
     Str.endswith ".pdf" name = false)
  /\ FileLoader.load_dir (fun file => Ok [FileLoader.Doc file []])
       (fun _ => Ok []) (fun _ _ _ docs => docs) 8 (fun files => files)
       bracket_listdir bracket_iglob_dirs
       (FileLoader.new_Loader FileLoader.pdf) "p[1]" 4
     = Ok [FileLoader.Doc "p1/a.pdf" []].
Proof.
  split; [|by vm_compute].
  intros name Hname. change (bracket_listdir "p[1]") with ["notes.txt"] in Hname.
  apply elem_of_cons in Hname as [->|Hname]; [by vm_compute|].
  by apply elem_of_nil in Hname.
Qed.

(** With a matching file in a directory of a plain name the call goes on to
    load it. *)
Example load_dir_with_matching_file :
  FileLoader.load_dir (fun f => Ok [FileLoader.Doc f []]) (fun _ => Ok [])
    (fun _ _ _ docs => docs) 8 (fun files => files)
    (fun _ => ["notes.txt"; "paper.pdf"; ".hidden.pdf"]) (fun _ => [])
    (FileLoader.new_Loader FileLoader.pdf) "data/" 2
  = Ok [FileLoader.Doc "data/paper.pdf" []].
Proof. by vm_compute. Qed.

(** * Further properties of the code *)

(** ** The session history *)

Section HistoryMore.
Import FileChatMessageHistory.
Implicit Types (fs : files) (turns : list message).

Lemma app_inv_head_str p a b : p +:+ a = p +:+ b -> a = b.
Proof.
  induction p as [|c p IH]; [done|]. rewrite !app_cons. intros H.
  apply IH. congruence.
Qed.

Lemma app_inv_tail_str t a b : a +:+ t = b +:+ t -> a = b.
Proof.
  revert b. induction a as [|c a IH]; intros [|d b] H.
  - done.
  - apply (f_equal String.length) in H.
    rewrite app_cons, app_empty_l in H. simpl in H.
    rewrite length_app_str in H. lia.
  - apply (f_equal String.length) in H.
    rewrite app_cons, app_empty_l in H. simpl in H.
    rewrite length_app_str in H. lia.
  - rewrite !app_cons in H. injection H as -> H. f_equal. by apply IH.
Qed.

Lemma valid_identifier_relative sid :
  History._is_valid_identifier sid = true ->
  Str.startswith "/" (sid +:+ ".json") = false.
Proof.
  intros Hsid. apply not_true_is_false. intros E.
  apply (startswith_char_contains "/") in E.
  rewrite contains_char_app in E.
  rewrite (valid_identifier_excludes "/" sid) in E by done. done.
Qed.

Lemma kept_last max turns :
  1 <= max -> kept max turns = drop (length turns - Z.to_nat max) turns.
Proof.
  intros Hmax. unfold kept. destruct (_ >? _) eqn:E.
  - apply slice_from_last. lia.
  - replace (length turns - Z.to_nat max)%nat with 0%nat by lia. done.
Qed.

Lemma kept_idem max turns : 0 <= max -> kept max (kept max turns) = kept max turns.
Proof.
  intros Hmax. destruct (decide (max = 0)) as [->|Hne].
  - assert (forall l : list message, kept 0 l = l) as H0.
    { intros l. unfold kept, slice_from. destruct (_ >? _); [|done].
      change (- 0 <? 0) with false. cbv iota. by rewrite Z.min_l by lia. }
    by rewrite !H0.
  - pose proof (kept_within_max max turns ltac:(lia)) as Hw.
    unfold within_max in Hw. unfold kept at 1.
    by assert ((Z.of_nat (length (kept max turns)) >? max) = false) as -> by lia.
Qed.

Lemma kept_negative max turns :
  max < 0 -> kept max turns = drop (Z.to_nat (- max)) turns.
Proof.
  intros Hmax. unfold kept, slice_from.
  assert ((Z.of_nat (length turns) >? max) = true) as ->
    by (apply Z.gtb_lt; lia).
  assert ((- max <? 0) = false) as -> by (apply Z.ltb_ge; lia).
  destruct (decide (- max <= Z.of_nat (length turns))) as [Hle|Hgt].
  - f_equal. lia.
  - rewrite !drop_ge; [done|lia|lia].
Qed.

(** X1. The identifiers that the validator accepts are exactly the strings
    of one or more letters, digits, hyphens and underscores, and those
    strings followed by one newline. *)
Theorem valid_identifier_characterised (sid : string) :
  History._is_valid_identifier sid = true <->
  exists body, identifier body /\ (sid = body \/ sid = body +:+ Str.nl).
Proof. apply is_valid_identifier_spec. Qed.

(** X2. An empty identifier, and an identifier that holds a character other
    than a letter, a digit, a hyphen, an underscore or a newline, makes the
    read raise the client error that quotes it and leaves every file as it
    was. *)
Theorem refused_identifier_leaves_files (base : string) (max : Z)
    (sid : string) (fs : files) :
  (sid = ""
   \/ exists c, Str.contains_char c sid = true
                /\ History.id_char c = false /\ c <> "010"%char) ->
  History.get_chat_history base max sid fs
  = (Raise (HTTPException 400
       ("Session ID `" +:+ sid +:+ "` is invalid. "
        +:+ "It can only contain letters, numbers, hyphens (-), and underscores (_).")),
     fs).
Proof.
  intros H. apply get_chat_history_invalid. apply not_true_is_false. intros Hv.
  destruct H as [->|(c & Hin & Hc & Hnl)]; [by vm_compute in Hv|].
  rewrite (valid_identifier_excludes c sid Hv Hc Hnl) in Hin. done.
Qed.

Lemma refused_identifier_leaves_files_witness :
  History.get_chat_history "h" 6 "../etc/passwd" ∅
  = (Raise (HTTPException 400
       ("Session ID `../etc/passwd` is invalid. "
        +:+ "It can only contain letters, numbers, hyphens (-), and underscores (_).")),
     ∅).
Proof.
  apply (refused_identifier_leaves_files "h" 6 "../etc/passwd" ∅).
  right. exists "/"%char. by vm_compute.
Defined.

(** X3. A read, accepted or refused, changes no file other than the record
    of its own session. *)
Theorem read_touches_own_record_only (base : string) (max : Z)
    (sid : string) (fs : files) (path : string) :
  path <> History.session_path base sid ->
  (History.get_chat_history base max sid fs).2 !! path = fs !! path.
Proof.
  intros Hne. destruct (History._is_valid_identifier sid) eqn:E.
  - rewrite get_chat_history_valid by done. simpl. by rewrite lookup_insert_ne.
  - by rewrite get_chat_history_invalid.
Qed.

Lemma read_touches_own_record_only_witness :
  let a := Message human "a" in
  let fs : files := {[ History.session_path "h" "s2" := [a; a; a] ]} in
  (History.get_chat_history "h" 1 "s1" fs).2 !! History.session_path "h" "s2"
  = fs !! History.session_path "h" "s2".
Proof.
  intros a fs.
  apply (read_touches_own_record_only "h" 1 "s1" fs).
  by vm_compute.
Defined.

(** X4. The first read of an accepted identifier that has no record creates
    the record, empty, whatever the maximum, and the history it returns
    holds no turn. *)
Theorem first_read_creates_empty_record (base : string) (max : Z)
    (sid : string) (fs : files) :
  History._is_valid_identifier sid = true ->
  History.stored base sid fs = None ->
  exists chat_hist,
    History.get_chat_history base max sid fs
    = (Ok chat_hist, <[History.session_path base sid := []]> fs)
    /\ messages chat_hist (<[History.session_path base sid := []]> fs) = [].
Proof.
  intros Hsid Hnone. eexists. split.
  - rewrite get_chat_history_valid, Hnone by done. simpl. by rewrite kept_nil.
  - apply messages_lookup. apply lookup_insert_eq.
Qed.

Lemma first_read_creates_empty_record_witness :
  exists chat_hist,
    History.get_chat_history "h" (-3) "default_session" ∅
    = (Ok chat_hist, <[History.session_path "h" "default_session" := []]> ∅)
    /\ messages chat_hist
         (<[History.session_path "h" "default_session" := []]> ∅) = [].
Proof.
  apply (first_read_creates_empty_record "h" (-3) "default_session" ∅).
  - by vm_compute.
  - apply lookup_empty.
Defined.

(** X5. With a maximum of zero or more, a second read right after a read
    returns the same history and changes no file. *)
Theorem second_read_changes_nothing (base : string) (max : Z)
    (sid : string) (fs : files) :
  0 <= max ->
  History.get_chat_history base max sid
    (History.get_chat_history base max sid fs).2
  = History.get_chat_history base max sid fs.
Proof.
  intros Hmax. destruct (History._is_valid_identifier sid) eqn:E.
  - rewrite (get_chat_history_valid base max sid fs) by done. cbn [snd].
    rewrite get_chat_history_valid by done. f_equal.
    unfold History.stored. rewrite lookup_insert_eq. simpl.
    by rewrite kept_idem, insert_insert_eq.
  - by rewrite !get_chat_history_invalid.
Qed.

Lemma second_read_changes_nothing_witness :
  let a := Message human "a" in
  let b := Message ai "b" in
  let fs : files := {[ History.session_path "h" "s1" := [a; b; a; b] ]} in
  History.get_chat_history "h" 0 "s1" (History.get_chat_history "h" 0 "s1" fs).2
  = History.get_chat_history "h" 0 "s1" fs.
Proof.
  intros a b fs. apply (second_read_changes_nothing "h" 0 "s1" fs). lia.
Defined.

(** X6. With a negative maximum every read evicts: it stores the record
    again without its first [- max_history_length] turns. *)
Theorem negative_max_evicts_on_every_read (base : string) (max : Z)
    (sid : string) (fs : files) (turns : list message) :
  max < 0 ->
  History._is_valid_identifier sid = true ->
  History.stored base sid fs = Some turns ->
  History.stored base sid (History.get_chat_history base max sid fs).2
  = Some (drop (Z.to_nat (- max)) turns).
Proof.
  intros Hmax Hsid Hst. rewrite stored_after_read, Hst by done. simpl.
  by rewrite kept_negative.
Qed.

Lemma negative_max_evicts_on_every_read_witness :
  let a := Message human "a" in
  let b := Message ai "b" in
  let fs : files := {[ History.session_path "h" "s1" := [a; b; a] ]} in
  History.stored "h" "s1" (History.get_chat_history "h" (-1) "s1" fs).2
  = Some [b; a].
Proof.
  intros a b fs.
  apply (negative_max_evicts_on_every_read "h" (-1) "s1" fs [a; b; a]).
  - lia.
  - by vm_compute.
  - apply lookup_singleton_eq.
Defined.

(** X7. Two accepted identifiers that differ have different records. *)
Theorem accepted_identifiers_do_not_collide (base sid1 sid2 : string) :
  History._is_valid_identifier sid1 = true ->
  History._is_valid_identifier sid2 = true ->
  sid1 <> sid2 ->
  History.session_path base sid1 <> History.session_path base sid2.
Proof.
  intros H1 H2 Hne. unfold History.session_path, Posixpath.join.
  rewrite !valid_identifier_relative by done.
  destruct (_ || _); intros H; apply Hne.
  - by apply app_inv_head_str, app_inv_tail_str in H.
  - by apply app_inv_head_str, app_inv_head_str, app_inv_tail_str in H.
Qed.

Lemma accepted_identifiers_do_not_collide_witness :
  "s1" <> "s2"
  /\ History.session_path "chat_histories" "s1"
     <> History.session_path "chat_histories" "s2".
Proof.
  assert ("s1" <> "s2") as Hne by done.
  split; [exact Hne|].
  apply (accepted_identifiers_do_not_collide "chat_histories" "s1" "s2");
    [by vm_compute|by vm_compute|exact Hne].
Defined.

(** X8. For a maximum of one or more, the history that a read returns holds
    the last [max_history_length] turns of the record, or all of them when
    there are fewer, in their order; a missing record counts as empty. *)
Theorem read_returns_most_recent_turns (base : string) (max : Z)
    (sid : string) (fs : files) :
  1 <= max ->
  History._is_valid_identifier sid = true ->
  let old := default [] (History.stored base sid fs) in
  exists chat_hist,
    (History.get_chat_history base max sid fs).1 = Ok chat_hist
    /\ messages chat_hist (History.get_chat_history base max sid fs).2
       = drop (length old - Z.to_nat max) old.
Proof.
  intros Hmax Hsid old. eexists. rewrite get_chat_history_valid by done.
  split; [done|]. cbn [snd]. rewrite <- kept_last by done.
  apply messages_lookup. apply lookup_insert_eq.
Qed.

Lemma read_returns_most_recent_turns_witness :
  exists chat_hist,
    (History.get_chat_history "h" 2 "s1"
       {[ History.session_path "h" "s1" :=
            [Message human "a"; Message ai "b"; Message human "c"] ]}).1
    = Ok chat_hist
    /\ messages chat_hist
         (History.get_chat_history "h" 2 "s1"
            {[ History.session_path "h" "s1" :=
                 [Message human "a"; Message ai "b"; Message human "c"] ]}).2
       = [Message ai "b"; Message human "c"].
Proof.
  pose proof (read_returns_most_recent_turns "h" 2 "s1"
    {[ History.session_path "h" "s1" :=
         [Message human "a"; Message ai "b"; Message human "c"] ]}
    ltac:(lia) ltac:(by vm_compute)) as H.
  cbv zeta in H. unfold History.stored in H.
  rewrite lookup_singleton_eq in H. exact H.
Defined.

(** X9. For a maximum of one or more, a read that follows an append leaves a
    record within the maximum that ends with the appended turn and is a
    suffix of the turns stored before the append followed by that turn. *)
Theorem read_after_append_keeps_newest (base : string) (max : Z)
    (sid : string) (fs : files) (m : message) :
  1 <= max ->
  History._is_valid_identifier sid = true ->
  let appended :=
    add_message (Make (History.session_path base sid)) m fs in
  exists turns,
    History.stored base sid (History.get_chat_history base max sid appended).2
    = Some turns
    /\ last turns = Some m
    /\ within_max max turns
    /\ turns `suffix_of` default [] (History.stored base sid fs) ++ [m].
Proof.
  intros Hmax Hsid appended.
  assert (History.stored base sid appended
          = Some (default [] (History.stored base sid fs) ++ [m])) as Happ.
  { unfold History.stored, appended, add_message, messages. cbn [file_path].
    apply lookup_insert_eq. }
  eexists. split; [by rewrite stored_after_read, Happ|]. simpl.
  split; [|split; [by apply kept_within_max|apply kept_suffix]].
  rewrite kept_last by done. rewrite length_app. simpl.
  rewrite drop_app_le by lia. apply last_snoc.
Qed.

Lemma read_after_append_keeps_newest_witness :
  exists turns,
    History.stored "h" "s1"
      (History.get_chat_history "h" 2 "s1"
         (add_message (Make (History.session_path "h" "s1")) (Message ai "c")
            {[ History.session_path "h" "s1" :=
                 [Message human "a"; Message ai "b"] ]})).2
    = Some turns
    /\ last turns = Some (Message ai "c")
    /\ within_max 2 turns
    /\ turns `suffix_of`
         default [] (History.stored "h" "s1"
            {[ History.session_path "h" "s1" :=
                 [Message human "a"; Message ai "b"] ]}) ++ [Message ai "c"].
Proof.
  apply (read_after_append_keeps_newest "h" 2 "s1"
           {[ History.session_path "h" "s1" :=
                [Message human "a"; Message ai "b"] ]} (Message ai "c")).
  - lia.
  - by vm_compute.
Defined.
End HistoryMore.

(** ** The answer extractors *)

Section StripFacts.
Implicit Types s t out text : string.

Lemma lstrip_suffix s : exists pre, s = pre +:+ Str.lstrip s.
Proof.
  induction s as [|c s [pre IH]]; [by exists ""|]. simpl.
  destruct (Str.isspace c); [|by exists ""].
  exists (String c pre). by rewrite app_cons, <- IH.
Qed.

Lemma rstrip_prefix s : exists post, s = Str.rstrip s +:+ post.
Proof.
  induction s as [|c s [post IH]]; [by exists ""|]. simpl.
  destruct (Str.rstrip s) as [|d r] eqn:E.
  - destruct (Str.isspace c); [by exists (String c s)|].
    exists post. by rewrite IH at 1.
  - exists post. by rewrite app_cons, <- IH.
Qed.

Lemma part_of_refl s : part_of s s.
Proof. exists "", "". by rewrite app_empty_r. Qed.

Lemma part_of_trans s t u : part_of s t -> part_of t u -> part_of s u.
Proof.
  intros (p1 & q1 & ->) (p2 & q2 & ->). exists (p2 +:+ p1), (q1 +:+ q2).
  by rewrite !app_assoc_str.
Qed.

Lemma part_of_strip s : part_of (Str.strip s) s.
Proof.
  unfold Str.strip. destruct (lstrip_suffix s) as [pre Hpre].
  destruct (rstrip_prefix (Str.lstrip s)) as [post Hpost].
  exists pre, post. by rewrite <- Hpost.
Qed.

Lemma part_of_after m text pre post out :
  text = pre +:+ m +:+ post -> part_of out post -> part_of out text.
Proof.
  intros -> Hout. apply (part_of_trans _ post); [done|].
  exists (pre +:+ m), "". by rewrite app_empty_r, app_assoc_str.
Qed.

Lemma part_of_contains c out text :
  part_of out text -> Str.contains_char c out = true ->
  Str.contains_char c text = true.
Proof.
  intros (pre & post & ->) H. rewrite !contains_char_app, H.
  by rewrite orb_true_r.
Qed.

Lemma rstrip_idem s : Str.rstrip (Str.rstrip s) = Str.rstrip s.
Proof.
  induction s as [|c s IH]; [done|]. cbn [Str.rstrip].
  destruct (Str.rstrip s) as [|d r] eqn:E.
  - destruct (Str.isspace c) eqn:Ec; [done|]. simpl. by rewrite Ec.
  - change (Str.rstrip (String c (String d r))) with
      (match Str.rstrip (String d r) with
       | EmptyString => if Str.isspace c then EmptyString else String c EmptyString
       | t => String c t
       end).
    by rewrite IH.
Qed.

Lemma lstrip_fixed_rstrip s :
  Str.lstrip s = s -> Str.lstrip (Str.rstrip s) = Str.rstrip s.
Proof.
  destruct s as [|c s]; [done|]. cbn [Str.lstrip].
  destruct (Str.isspace c) eqn:Ec.
  - intros H. pose proof (length_lstrip s) as Hlen. rewrite H in Hlen.
    simpl in Hlen. lia.
  - intros _. cbn [Str.rstrip].
    rewrite Ec. destruct (Str.rstrip s); cbn [Str.lstrip]; by rewrite Ec.
Qed.

Lemma strip_idem s : Str.strip (Str.strip s) = Str.strip s.
Proof.
  unfold Str.strip.
  rewrite (lstrip_fixed_rstrip (Str.lstrip s)) by apply lstrip_idem.
  apply rstrip_idem.
Qed.
End StripFacts.

Lemma rag_parse_unfold text :
  Rag.parse text =
    match Str.after "Answer:" text with
    | Some post => Ok (Str.strip (Str.lstrip post))
    | None => Ok text
    end.
Proof.
  unfold Rag.parse, Rag._extract_answer. rewrite search_answer.
  by destruct (Str.after "Answer:" text).
Qed.

(** X10. The parser of the document chain never raises, and what it returns
    is a contiguous part of the text it was given. *)
Theorem rag_parse_returns_part_of_text (text : string) :
  exists out, Rag.parse text = Ok out /\ part_of out text.
Proof.
  rewrite rag_parse_unfold.
  destruct (Str.after "Answer:" text) as [post|] eqn:E.
  - eexists. split; [done|]. apply after_Some in E as (pre & Heq & _).
    apply (part_of_after _ _ _ _ _ Heq). rewrite strip_lstrip.
    apply part_of_strip.
  - eexists. split; [done|]. apply part_of_refl.
Qed.

(** X11. When the text holds the marker [Answer:], the answer of the parser
    of the document chain has no whitespace at either end. *)
Theorem rag_parse_answer_is_trimmed (text : string) :
  ~ absent "Answer:" text ->
  exists out, Rag.parse text = Ok out /\ Str.strip out = out.
Proof.
  intros H. rewrite rag_parse_unfold.
  destruct (Str.after "Answer:" text) as [post|] eqn:E.
  - eexists. split; [done|]. rewrite strip_lstrip. apply strip_idem.
  - by apply after_None in E.
Qed.

Lemma rag_parse_answer_is_trimmed_witness :
  exists out,
    Rag.parse ("The context says. Answer:  Paris " +:+ Str.nl) = Ok out
    /\ Str.strip out = out.
Proof.
  apply (rag_parse_answer_is_trimmed
           ("The context says. Answer:  Paris " +:+ Str.nl)).
  intros H. apply after_None in H. by vm_compute in H.
Defined.

(** *** The helper of the interface package *)

Lemma run_group_line c :
  Re.group1 <$> Re.run Re.NOFLAG (Re.Grp (Re.Star Re.Dot)) c Some
  = Some (Some (first_line (Re.rest c))).
Proof.
  destruct c as [i s g].
  change (Re.run Re.NOFLAG (Re.Grp (Re.Star Re.Dot)) _ Some) with
    (Re.star_loop (Re.step1 (Re.dot_accepts Re.NOFLAG)) (String.length s)
       (Re.Cursor i s g)
       (fun c' => Some (Re.Cursor (Re.pos c') (Re.rest c')
                          (Some (Str.take (Re.pos c' - i) s))))).
  erewrite star_greedy; [|done|reflexivity].
  unfold Re.advance. cbn [Re.pos Re.rest fmap option_fmap option_map Re.group1].
  do 2 f_equal. unfold first_line.
  by replace (i + Str.span (Re.dot_accepts Re.NOFLAG) s - i)%nat
    with (Str.span (Re.dot_accepts Re.NOFLAG) s) by lia.
Qed.

Lemma group1_match_at_answer_noflag i s :
  Re.group1 <$> Re.match_at Re.NOFLAG Rag.answer_pattern i s =
    if Str.startswith "Answer:" s
    then Some (Some (first_line
                       (Str.lstrip (Str.drop (String.length "Answer:") s))))
    else None.
Proof.
  unfold Re.match_at, Rag.answer_pattern. rewrite run_Lit. cbn [Re.rest].
  destruct (Str.startswith "Answer:" s); [|done].
  set (c := Re.advance _ _).
  change (Re.run Re.NOFLAG (Re.Cat ?r1 ?r2) c Some) with
    (Re.star_loop (Re.step1 Str.isspace) (String.length (Re.rest c)) c
       (fun c' => Re.run Re.NOFLAG r2 c' Some)).
  pose proof (run_group_line (Re.advance (Str.span Str.isspace (Re.rest c)) c))
    as Hg.
  destruct (Re.run Re.NOFLAG _ (Re.advance _ c) Some) as [x|] eqn:Ex;
    [|done].
  erewrite star_greedy; [|done|exact Ex].
  rewrite Hg. unfold Re.advance. cbn [Re.rest]. by rewrite drop_span_lstrip.
Qed.

(** [re.search] with a pattern whose group 1, wherever the literal head
    [m] stands, is a function of what follows [m]. *)
Lemma search_from_group1 fl pat m (g : string -> string) :
  (forall i s, Re.group1 <$> Re.match_at fl pat i s =
     if Str.startswith m s
     then Some (Some (g (Str.drop (String.length m) s)))
     else None) ->
  forall i s, Re.group1 <$> Re.search_from fl pat i s =
    (fun post => Some (g post)) <$> Str.after m s.
Proof.
  intros Hat i s. revert i. induction s as [|c s IH]; intros i;
    cbn [Re.search_from]; specialize (Hat i); rewrite after_unfold.
  - specialize (Hat ""). destruct (Re.match_at fl pat i "");
      destruct (Str.startswith m ""); simpl in *; congruence.
  - specialize (Hat (String c s)). destruct (Re.match_at fl pat i (String c s));
      destruct (Str.startswith m (String c s)); simpl in *;
      first [congruence | apply IH].
Qed.

Lemma utils_extract_answer_unfold text :
  Utils.extract_answer text Rag.answer_pattern =
    match Str.after "Answer:" text with
    | Some post => Ok (Str.strip (first_line (Str.lstrip post)))
    | None => Ok "Answer not found."
    end.
Proof.
  unfold Utils.extract_answer, Re.search.
  pose proof (search_from_group1 Re.NOFLAG Rag.answer_pattern "Answer:"
                (fun post => first_line (Str.lstrip post))
                group1_match_at_answer_noflag 0 text) as H.
  destruct (Re.search_from _ _ _ _) as [m|];
    destruct (Str.after "Answer:" text); simpl in H; simplify_eq; [|done].
  unfold Re.group1_strip. by rewrite H.
Qed.

Lemma first_line_no_newline s : Str.contains_char "010" (first_line s) = false.
Proof.
  apply (all_excludes (fun c => negb (Ascii.eqb c "010"))); [|done].
  apply all_take_span.
Qed.

Lemma part_of_first_line s : part_of (first_line s) s.
Proof.
  exists "", (Str.drop (Str.span (fun c => negb (Ascii.eqb c "010")) s) s).
  unfold first_line. by rewrite app_empty_l, take_drop_str.
Qed.

(** X12. The helper [extract_answer] with its default pattern: the first
    line of what follows the first [Answer:] and the whitespace after it,
    trimmed; the fixed text [Answer not found.] when there is no marker. *)
Theorem utils_extract_answer_first_line (text pre post : string) :
  (first_occurrence "Answer:" text pre post ->
   Utils.extract_answer text Rag.answer_pattern
   = Ok (Str.strip (first_line (Str.lstrip post))))
  /\ (absent "Answer:" text ->
      Utils.extract_answer text Rag.answer_pattern = Ok "Answer not found.").
Proof.
  rewrite utils_extract_answer_unfold. split.
  - intros H. by rewrite (after_first_occurrence _ _ _ _ H).
  - intros H. apply after_None in H. by rewrite H.
Qed.

(** X13. When the text holds the marker, the helper's answer is a part of
    the text that holds no newline. *)
Theorem utils_extract_answer_single_line (text : string) :
  ~ absent "Answer:" text ->
  exists out,
    Utils.extract_answer text Rag.answer_pattern = Ok out
    /\ Str.contains_char "010" out = false
    /\ part_of out text.
Proof.
  intros H. rewrite utils_extract_answer_unfold.
  destruct (Str.after "Answer:" text) as [post|] eqn:E;
    [|by apply after_None in E].
  eexists. split; [done|]. split.
  - apply not_true_is_false. intros Hin.
    apply (part_of_contains _ _ _ (part_of_strip _)) in Hin.
    by rewrite first_line_no_newline in Hin.
  - apply after_Some in E as (pre & Heq & _).
    apply (part_of_after _ _ _ _ _ Heq).
    apply (part_of_trans _ _ _ (part_of_strip _)).
    apply (part_of_trans _ _ _ (part_of_first_line _)).
    destruct (lstrip_suffix post) as [p Hp]. exists p, "".
    by rewrite app_empty_r.
Qed.

Lemma utils_extract_answer_single_line_witness :
  exists out,
    Utils.extract_answer ("Answer: Paris" +:+ Str.nl +:+ "It is in France.")
      Rag.answer_pattern = Ok out
    /\ Str.contains_char "010" out = false
    /\ part_of out ("Answer: Paris" +:+ Str.nl +:+ "It is in France.").
Proof.
  apply (utils_extract_answer_single_line
           ("Answer: Paris" +:+ Str.nl +:+ "It is in France.")).
  intros H. apply after_None in H. by vm_compute in H.
Defined.

(** C5, as amended. The two extractors of the document chains.  The parser
    of [rag.py]: the text after the first [Answer:] and the whitespace that
    follows it, trimmed; the text itself when it holds no [Answer:].  The
    helper of [utils.py]: the first line of that text, trimmed; the fixed
    text [Answer not found.] when there is no [Answer:]. *)
Theorem document_answer_extractors (text pre post : string) :
  (first_occurrence "Answer:" text pre post ->
   Rag.parse text = Ok (Str.strip (Str.lstrip post))
   /\ Utils.extract_answer text Rag.answer_pattern
      = Ok (Str.strip (first_line (Str.lstrip post))))
  /\ (absent "Answer:" text ->
      Rag.parse text = Ok text
      /\ Utils.extract_answer text Rag.answer_pattern
         = Ok "Answer not found.").
Proof.
  rewrite rag_parse_unfold, utils_extract_answer_unfold. split.
  - intros H. by rewrite (after_first_occurrence _ _ _ _ H).
  - intros H. apply after_None in H. by rewrite H.
Qed.

Lemma document_answer_extractors_witness :
  (first_occurrence "Answer:" "Answer: Paris" "" " Paris"
   /\ Rag.parse "Answer: Paris" = Ok "Paris"
   /\ Utils.extract_answer "Answer: Paris" Rag.answer_pattern = Ok "Paris")
  /\ (absent "Answer:" "Paris"
      /\ Rag.parse "Paris" = Ok "Paris"
      /\ Utils.extract_answer "Paris" Rag.answer_pattern
         = Ok "Answer not found.").
Proof.
  split.
  - assert (first_occurrence "Answer:" "Answer: Paris" "" " Paris") as H
      by apply (first_occurrence_here "Answer:" " Paris").
    split; [exact H|].
    exact (proj1 (document_answer_extractors "Answer: Paris" "" " Paris") H).
  - assert (absent "Answer:" "Paris") as H by (by apply after_None).
    split; [exact H|].
    exact (proj2 (document_answer_extractors "Paris" "" "") H).
Defined.

(** C5, as stated, fails on the helper of [utils.py]: without the marker it
    does not return the text. *)
Lemma document_answer_extractors_counterexample :
  ~ (forall text : string,
       absent "Answer:" text ->
       Rag.parse text = Ok text
       /\ Utils.extract_answer text Rag.answer_pattern = Ok text).
Proof.
  intros H. destruct (H "Paris") as [_ Hutils]; [by apply after_None|].
  by vm_compute in Hutils.
Qed.

(** *** The parser of the chat chain *)

Lemma part_of_length out text :
  part_of out text -> (String.length out <= String.length text)%nat.
Proof. intros (pre & post & ->). rewrite !length_app_str. lia. Qed.

(** What [recursive_extract] returns, when it returns, for a marker
    pattern: the default when the marker is missing; otherwise a trimmed
    part of the text in which the marker no longer occurs. *)
Lemma recursive_extract_depth_ok m depth text d t :
  OutputParser.recursive_extract_depth depth text
    (Re.Lit m (Re.Grp (Re.Star Re.Dot))) d = Ok t ->
  (absent m text -> t = d)
  /\ (~ absent m text ->
      absent m t /\ part_of t text /\ Str.strip t = t).
Proof.
  revert text d. induction depth as [|depth IH]; intros text d; [done|].
  cbn [OutputParser.recursive_extract_depth]. rewrite search_marker.
  destruct (Str.after m text) as [post|] eqn:E; simpl.
  - intros Ht. destruct (IH _ _ Ht) as [Hnone Hsome]. split.
    + intros Habs. apply after_None in Habs. congruence.
    + intros _. apply after_Some in E as (pre & Heq & _).
      assert (part_of (Str.strip post) text) as Hpart
        by (apply (part_of_after _ _ _ _ _ Heq), part_of_strip).
      destruct (Str.after m (Str.strip post)) as [post'|] eqn:E'.
      * destruct Hsome as (Ha & Hp & Hs).
        { intros Habs. apply after_None in Habs. congruence. }
        split; [done|]. split; [|done]. by apply (part_of_trans _ _ _ Hp).
      * apply after_None in E'. rewrite (Hnone E').
        split; [done|]. split; [done|]. apply strip_idem.
  - intros [= <-]. split; [done|]. intros H. by apply after_None in E.
Qed.

(** The only exception that [recursive_extract] raises for a marker pattern
    is the interpreter's. *)
Lemma recursive_extract_depth_raise m depth text d e :
  OutputParser.recursive_extract_depth depth text
    (Re.Lit m (Re.Grp (Re.Star Re.Dot))) d = Raise e ->
  e = RecursionError.
Proof.
  revert text d. induction depth as [|depth IH]; intros text d.
  - by intros [= <-].
  - cbn [OutputParser.recursive_extract_depth]. rewrite search_marker.
    destruct (Str.after m text) as [post|]; simpl; [apply IH|done].
Qed.

(** X14. [recursive_extract] with a marker pattern returns whenever the
    interpreter allows more nested calls than the text has characters; what
    it returns is the default when the text does not hold the marker, and
    otherwise a part of the text, without whitespace at its ends, that no
    longer holds the marker; and the only exception it raises is
    [RecursionError]. *)
Theorem recursive_extract_leaves_no_marker (depth : nat) (m text d : string) :
  m <> "" ->
  ((String.length text < depth)%nat ->
   exists t,
     OutputParser.recursive_extract depth text
       (Re.Lit m (Re.Grp (Re.Star Re.Dot))) d = Ok t)
  /\ (forall t,
        OutputParser.recursive_extract depth text
          (Re.Lit m (Re.Grp (Re.Star Re.Dot))) d = Ok t ->
        (absent m text -> t = d)
        /\ (~ absent m text ->
            absent m t /\ part_of t text /\ Str.strip t = t))
  /\ (forall e,
        OutputParser.recursive_extract depth text
          (Re.Lit m (Re.Grp (Re.Star Re.Dot))) d = Raise e ->
        e = RecursionError).
Proof.
  intros Hm. split; [|split].
  - by apply recursive_extract_depth_total.
  - intros t. apply recursive_extract_depth_ok.
  - intros e. apply recursive_extract_depth_raise.
Qed.

Lemma recursive_extract_leaves_no_marker_witness :
  exists t,
    OutputParser.recursive_extract 1000
      (Str.nl +:+ "AI: one" +:+ Str.nl +:+ "AI: two")
      (Re.Lit (Str.nl +:+ "AI:") (Re.Grp (Re.Star Re.Dot))) "none" = Ok t
    /\ absent (Str.nl +:+ "AI:") t
    /\ part_of t (Str.nl +:+ "AI: one" +:+ Str.nl +:+ "AI: two")
    /\ Str.strip t = t.
Proof.
  assert (Str.nl +:+ "AI:" <> "") as Hm by done.
  destruct (recursive_extract_leaves_no_marker 1000 (Str.nl +:+ "AI:")
              (Str.nl +:+ "AI: one" +:+ Str.nl +:+ "AI: two") "none" Hm)
    as (Htotal & Hok & _).
  destruct Htotal as [t Ht]; [simpl; lia|].
  exists t. split; [exact Ht|]. apply (Hok t Ht).
  intros Habs. apply after_None in Habs. by vm_compute in Habs.
Defined.

Lemma loop_body_unfold depth v pattern :
  OutputParser.loop_body depth v pattern =
    out ← OutputParser.recursive_extract depth (OutputParser.input_text v)
            pattern (OutputParser.default_answer v);
    if negb (String.eqb out (OutputParser.default_answer v))
    then Ok (OutputParser.Vars out out (Some out))
    else Ok (OutputParser.Vars (OutputParser.input_text v)
               (OutputParser.default_answer v) (Some out)).
Proof. reflexivity. Qed.

Lemma chat_parse_unfold depth text :
  OutputParser.parse depth text =
    t1 ← OutputParser.recursive_extract depth text
           OutputParser.assistant_pattern OutputParser.default;
    if negb (String.eqb t1 OutputParser.default)
    then OutputParser.recursive_extract depth t1 OutputParser.ai_pattern t1
    else OutputParser.recursive_extract depth text OutputParser.ai_pattern
           OutputParser.default.
Proof.
  unfold OutputParser.parse, OutputParser._extract_answer.
  cbn [OutputParser.for_patterns].
  rewrite loop_body_unfold.
  cbn [OutputParser.input_text OutputParser.default_answer].
  destruct (OutputParser.recursive_extract depth text
              OutputParser.assistant_pattern OutputParser.default)
    as [t1|e]; cbn [mbind result_bind]; [|done].
  destruct (negb (String.eqb t1 OutputParser.default));
    cbn [mbind result_bind]; rewrite loop_body_unfold;
    cbn [OutputParser.input_text OutputParser.default_answer];
    match goal with
    | |- context [OutputParser.recursive_extract ?d ?x ?p ?y] =>
        destruct (OutputParser.recursive_extract d x p y) as [t2|e]
    end; cbn [mbind result_bind]; try done;
    by destruct (negb _).
Qed.

(** X15. The parser of the chat chain returns whenever the interpreter
    allows more nested calls than the text has characters; an answer it
    returns never holds the marker of the second pattern and is the fallback
    or a part of the text without whitespace at its ends; and the only
    exception it raises is [RecursionError]. *)
Theorem chat_parse_answer_shape (depth : nat) (text : string) :
  ((String.length text < depth)%nat ->
   exists out, OutputParser.parse depth text = Ok out)
  /\ (forall out,
        OutputParser.parse depth text = Ok out ->
        absent (Str.nl +:+ "AI:") out
        /\ (out = OutputParser.default
            \/ (part_of out text /\ Str.strip out = out)))
  /\ (forall e, OutputParser.parse depth text = Raise e -> e = RecursionError).
Proof.
  assert (absent (Str.nl +:+ "AI:") OutputParser.default) as Hdef
    by (by apply after_None).
  assert (Str.nl +:+ "Assistant:" <> "") as Hm1 by done.
  assert (Str.nl +:+ "AI:" <> "") as Hm2 by done.
  rewrite chat_parse_unfold.
  unfold OutputParser.recursive_extract, OutputParser.assistant_pattern,
    OutputParser.ai_pattern.
  destruct (OutputParser.recursive_extract_depth depth text
              (Re.Lit (Str.nl +:+ "Assistant:") _) OutputParser.default)
    as [t1|e1] eqn:E1; cbn [mbind result_bind].
  - (* the first pass returned [t1] *)
    destruct (recursive_extract_depth_ok _ _ _ _ _ E1) as [Hnone1 Hsome1].
    destruct (String.eqb t1 OutputParser.default) eqn:Eq; cbn [negb].
    + (* [t1] is the fallback: the second pass runs on the text *)
      split; [|split].
      * intros Hlen. by apply recursive_extract_depth_total.
      * intros out E2.
        destruct (recursive_extract_depth_ok _ _ _ _ _ E2) as [Hnone2 Hsome2].
        destruct (Str.after (Str.nl +:+ "AI:") text) eqn:E.
        -- destruct Hsome2 as (? & ? & ?); [|by auto].
           intros Habs. apply after_None in Habs. congruence.
        -- apply after_None in E. rewrite (Hnone2 E). auto.
      * intros e. apply recursive_extract_depth_raise.
    + (* [t1] is a part of the text: the second pass runs on it *)
      apply String.eqb_neq in Eq.
      assert (part_of t1 text /\ Str.strip t1 = t1) as [Hp1 Hs1].
      { destruct (Str.after (Str.nl +:+ "Assistant:") text) eqn:E.
        - destruct Hsome1 as (? & ? & ?); [|done].
          intros Habs. apply after_None in Habs. congruence.
        - apply after_None in E. by destruct (Eq (Hnone1 E)). }
      split; [|split].
      * intros Hlen. apply recursive_extract_depth_total; [done|].
        apply part_of_length in Hp1. lia.
      * intros out E2.
        destruct (recursive_extract_depth_ok _ _ _ _ _ E2) as [Hnone2 Hsome2].
        destruct (Str.after (Str.nl +:+ "AI:") t1) eqn:E.
        -- destruct Hsome2 as (? & ? & ?).
           { intros Habs. apply after_None in Habs. congruence. }
           split; [done|]. right. split; [|done].
           by apply (part_of_trans _ t1).
        -- apply after_None in E. rewrite (Hnone2 E). auto.
      * intros e. apply recursive_extract_depth_raise.
  - (* the first pass raised *)
    split; [|split].
    + intros Hlen.
      destruct (recursive_extract_depth_total (Str.nl +:+ "Assistant:")
                  depth text OutputParser.default Hm1 Hlen) as [t Ht].
      congruence.
    + done.
    + intros e [= <-]. by apply (recursive_extract_depth_raise _ _ _ _ _ E1).
Qed.

(** *** The context of the document chain *)

Lemma join_app sep l1 l2 :
  l1 <> [] -> l2 <> [] ->
  Str.join sep (l1 ++ l2) = Str.join sep l1 +:+ sep +:+ Str.join sep l2.
Proof.
  intros H1 H2. induction l1 as [|a [|b l1] IH]; [done| |].
  - destruct l2; [done|]. reflexivity.
  - change (Str.join sep ((a :: b :: l1) ++ l2))
      with (a +:+ sep +:+ Str.join sep ((b :: l1) ++ l2)).
    rewrite IH by done.
    change (Str.join sep (a :: b :: l1))
      with (a +:+ sep +:+ Str.join sep (b :: l1)).
    by rewrite !app_assoc_str.
Qed.

(** X16. The context handed to the prompt: empty for no document, and for
    two non-empty batches of documents the context of the first, one blank
    line, and the context of the second. *)
Theorem format_docs_concatenates (docs1 docs2 : list FileLoader.Document) :
  RAG._format_docs [] = ""
  /\ (docs1 <> [] -> docs2 <> [] ->
      RAG._format_docs (docs1 ++ docs2)
      = RAG._format_docs docs1 +:+ Str.nl +:+ Str.nl
        +:+ RAG._format_docs docs2).
Proof.
  split; [done|]. intros H1 H2. unfold RAG._format_docs.
  rewrite map_app, join_app, app_assoc_str.
  - done.
  - by destruct docs1.
  - by destruct docs2.
Qed.

Lemma format_docs_concatenates_witness :
  RAG._format_docs
    ([FileLoader.Doc "Paris is in France." []]
     ++ [FileLoader.Doc "Rome is in Italy." []])
  = "Paris is in France." +:+ Str.nl +:+ Str.nl +:+ "Rome is in Italy.".
Proof.
  apply (format_docs_concatenates [FileLoader.Doc "Paris is in France." []]
           [FileLoader.Doc "Rome is in Italy." []]); done.
Defined.

(** ** The loader *)

Section LoaderMore.
Import FileLoader.

Lemma remove_ascii_only text : ascii_only (remove_non_utf8_characters text) = true.
Proof.
  induction text as [|c text IH]; [done|]. simpl.
  destruct (Str.ord c <? 128) eqn:E; [|done].
  unfold ascii_only in *. simpl. by rewrite E.
Qed.

Lemma remove_fixes_ascii text :
  ascii_only text = true -> remove_non_utf8_characters text = text.
Proof.
  unfold ascii_only. induction text as [|c text IH]; [done|]. simpl.
  intros [Hc Ht]%andb_true_iff. by rewrite Hc, IH.
Qed.

(** X17. [remove_non_utf8_characters] returns a text of code points below
    128 only, leaves such a text as it is, and so changes nothing when
    applied twice. *)
Theorem remove_non_utf8_characters_keeps_ascii (text : string) :
  ascii_only (remove_non_utf8_characters text) = true
  /\ (ascii_only text = true -> remove_non_utf8_characters text = text)
  /\ remove_non_utf8_characters (remove_non_utf8_characters text)
     = remove_non_utf8_characters text.
Proof.
  split; [apply remove_ascii_only|]. split; [apply remove_fixes_ascii|].
  apply remove_fixes_ascii, remove_ascii_only.
Qed.

(** X18. [remove_non_utf8_characters] works character by character: the
    result for a concatenation is the concatenation of the results, and no
    result is longer than its text. *)
Theorem remove_non_utf8_characters_app (text1 text2 : string) :
  remove_non_utf8_characters (text1 +:+ text2)
  = remove_non_utf8_characters text1 +:+ remove_non_utf8_characters text2
  /\ (String.length (remove_non_utf8_characters text1)
      <= String.length text1)%nat.
Proof.
  split.
  - induction text1 as [|c t IH]; [done|]. rewrite app_cons. simpl.
    destruct (Str.ord c <? 128); [|done]. by rewrite app_cons, IH.
  - induction text1 as [|c t IH]; [done|]. simpl.
    destruct (Str.ord c <? 128); simpl; lia.
Qed.

(** X19. A file that parses is loaded into as many documents as the parser
    returned, in the same order and with the same metadata, each with a
    content of code points below 128; a parser's exception is raised
    unchanged.  [load_pdf] and [load_html] alike. *)
Theorem load_file_cleans_contents
    (parse : string -> result (list Document)) (file : string) :
  (load_pdf parse file = load_html parse file)
  /\ (forall docs, parse file = Ok docs ->
        exists cleaned,
          load_pdf parse file = Ok cleaned
          /\ length cleaned = length docs
          /\ map metadata cleaned = map metadata docs
          /\ Forall (fun doc => ascii_only (page_content doc) = true) cleaned)
  /\ (forall e, parse file = Raise e -> load_pdf parse file = Raise e).
Proof.
  split; [done|]. split.
  - intros docs H. exists (map clean docs). unfold load_pdf. rewrite H.
    split; [done|]. split; [by rewrite length_map|]. split.
    + rewrite <- list_fmap_compose. by apply list_fmap_ext.
    + apply Forall_fmap, Forall_true. intros doc. apply remove_ascii_only.
  - intros e H. unfold load_pdf. by rewrite H.
Qed.

Lemma extend_all_ok (f : string -> result (list Document))
    (g : string -> list Document) files acc :
  (forall file, file ∈ files -> f file = Ok (g file)) ->
  extend_all f files acc = Ok (acc ++ concat (map g files)).
Proof.
  revert acc. induction files as [|file files IH]; intros acc H; simpl.
  - by rewrite app_nil_r.
  - rewrite (H file) by apply list_elem_of_here. simpl.
    rewrite IH, app_assoc; [done|].
    intros file' Hin. apply H. by apply list_elem_of_further.
Qed.

Lemma extend_all_raises (f : string -> result (list Document)) files acc
    file e :
  file ∈ files -> f file = Raise e ->
  exists e', extend_all f files acc = Raise e'.
Proof.
  revert acc. induction files as [|a files IH]; intros acc Hin Hf.
  - by apply elem_of_nil in Hin.
  - simpl. destruct (f a) as [docs|e0] eqn:Ea; simpl; [|by eexists].
    apply elem_of_cons in Hin as [->|Hin]; [congruence|]. by apply IH.
Qed.

(** X20. A pool of one process or more, every file parses: [load] returns
    the splitter's output for the cleaned documents of the files, file by
    file in the order in which the pool hands the files back, and each
    file's documents in the parser's order. *)
Theorem load_concatenates_in_completion_order
    (PyPDFLoader_load BSHTMLLoader_load : string -> result (list Document))
    (split_documents :
       list string -> Z -> Z -> list Document -> list Document)
    (cpu_count : Z) (completion_order : list string -> list string)
    (self : Loader) (files : list string) (workers : Z)
    (raw : string -> list Document) :
  loader_file_type self = pdf ->
  1 <= cpu_count -> 1 <= workers ->
  (forall file, file ∈ completion_order files ->
     PyPDFLoader_load file = Ok (raw file)) ->
  load PyPDFLoader_load BSHTMLLoader_load split_documents cpu_count
    completion_order self files workers
  = Ok (split split_documents (doc_spltter self)
          (concat (map (fun file => map clean (raw file))
                     (completion_order files)))).
Proof.
  intros Hpdf Hcpu Hworkers Hparse. unfold load, doc_loader. rewrite Hpdf.
  unfold call_loader, get_num_cpu.
  assert ((Z.min cpu_count workers <? 1) = false) as ->
    by (apply Z.ltb_ge; lia).
  rewrite (extend_all_ok _ (fun file => map clean (raw file))); [done|].
  intros file Hin. unfold load_pdf. by rewrite (Hparse file Hin).
Qed.

Lemma load_concatenates_in_completion_order_witness :
  load (fun file => Ok [Doc (file +:+ " p1") []; Doc (file +:+ " p2") []])
    (fun _ => Ok []) (fun _ _ _ docs => docs) 8 (@rev string)
    (new_Loader pdf) ["a.pdf"; "b.pdf"] 2
  = Ok [Doc "b.pdf p1" []; Doc "b.pdf p2" [];
        Doc "a.pdf p1" []; Doc "a.pdf p2" []].
Proof.
  apply (load_concatenates_in_completion_order
           (fun file => Ok [Doc (file +:+ " p1") []; Doc (file +:+ " p2") []])
           (fun _ => Ok []) (fun _ _ _ docs => docs) 8 (@rev string)
           (new_Loader pdf) ["a.pdf"; "b.pdf"] 2
           (fun file => [Doc (file +:+ " p1") []; Doc (file +:+ " p2") []])).
  - done.
  - lia.
  - lia.
  - done.
Defined.

(** X21. One file whose parser raises makes the whole [load] raise: no
    document of any file is returned. *)
Theorem load_raises_when_a_file_fails
    (PyPDFLoader_load BSHTMLLoader_load : string -> result (list Document))
    (split_documents :
       list string -> Z -> Z -> list Document -> list Document)
    (cpu_count : Z) (completion_order : list string -> list string)
    (self : Loader) (files : list string) (workers : Z)
    (file : string) (e : exn) :
  file ∈ completion_order files ->
  match loader_file_type self with
  | pdf => PyPDFLoader_load file
  | html => BSHTMLLoader_load file
  end = Raise e ->
  exists e',
    load PyPDFLoader_load BSHTMLLoader_load split_documents cpu_count
      completion_order self files workers = Raise e'.
Proof.
  intros Hin Hfail. unfold load, doc_loader, call_loader.
  destruct (loader_file_type self);
    (destruct (_ <? 1); [by eexists|]);
    [destruct (extend_all_raises (load_pdf PyPDFLoader_load)
                 (completion_order files) [] file e Hin) as [e' ->]
    |destruct (extend_all_raises (load_html BSHTMLLoader_load)
                 (completion_order files) [] file e Hin) as [e' ->]];
    try (by eexists).
  - unfold load_pdf. by rewrite Hfail.
  - unfold load_html. by rewrite Hfail.
Qed.

Lemma load_raises_when_a_file_fails_witness :
  exists e',
    load (fun file => if String.eqb file "bad.pdf"
                      then Raise (LoaderError file) else Ok [Doc file []])
      (fun _ => Ok []) (fun _ _ _ docs => docs) 8 (fun files => files)
      (new_Loader pdf) ["good.pdf"; "bad.pdf"] 2 = Raise e'.
Proof.
  apply (load_raises_when_a_file_fails
           (fun file => if String.eqb file "bad.pdf"
                        then Raise (LoaderError file) else Ok [Doc file []])
           (fun _ => Ok []) (fun _ _ _ docs => docs) 8 (fun files => files)
           (new_Loader pdf) ["good.pdf"; "bad.pdf"] 2
           "bad.pdf" (LoaderError "bad.pdf")).
  - apply list_elem_of_further, list_elem_of_here.
  - done.
Defined.

Lemma glob_empty (listdir : string -> list string)
    (iglob_dirs : string -> list string) dir_path ext :
  (forall dirname, dirname ∈ glob_dirs iglob_dirs dir_path ->
     forall name, name ∈ listdir dirname -> fnmatch_ext ext name = false) ->
  glob listdir iglob_dirs dir_path ext = [].
Proof.
  unfold glob. induction (glob_dirs iglob_dirs dir_path) as [|d dirs IH];
    intros H; [done|]. simpl.
  rewrite filter_all_false by (apply H, list_elem_of_here). simpl.
  apply IH. intros dirname Hin. apply H. by apply list_elem_of_further.
Qed.

Lemma rstrip_sep_prefix s : exists post, s = rstrip_sep s +:+ post.
Proof.
  induction s as [|c s [post IH]]; [by exists ""|]. simpl.
  destruct (rstrip_sep s) as [|d r] eqn:E.
  - destruct (Ascii.eqb c "/"); [by exists (String c s)|].
    exists post. by rewrite IH at 1.
  - exists post. by rewrite app_cons, <- IH.
Qed.

Lemma contains_char_rstrip_sep c s :
  Str.contains_char c s = false -> Str.contains_char c (rstrip_sep s) = false.
Proof.
  destruct (rstrip_sep_prefix s) as [post Hs]. intros H.
  rewrite Hs, contains_char_app in H. by apply orb_false_iff in H as [? _].
Qed.

(** A path without magic characters names the one directory that [glob]
    lists. *)
Lemma glob_dirs_literal (iglob_dirs : string -> list string) dir_path :
  has_magic dir_path = false ->
  glob_dirs iglob_dirs dir_path = [pattern_dirname dir_path].
Proof.
  intros Hplain. unfold glob_dirs.
  assert (has_magic (pattern_dirname dir_path) = false) as ->; [|done].
  unfold has_magic in *.
  apply orb_false_iff in Hplain as [[H1 H2]%orb_false_iff H3].
  assert (forall c, Str.contains_char c dir_path = false ->
                    Ascii.eqb "/" c = false ->
                    Str.contains_char c (pattern_dirname dir_path) = false)
    as Hkeep.
  { intros c Hc Hsep. unfold pattern_dirname.
    assert (Str.contains_char c (dir_path +:+ "/") = false) as Hhead.
    { rewrite contains_char_app, Hc. cbn [Str.contains_char orb].
      by rewrite Hsep. }
    destruct (Str.all _ _); [done|]. by apply contains_char_rstrip_sep. }
  by rewrite !Hkeep.
Qed.

(** X22. Hidden entries do not count: when, in every directory that the
    pattern [dir_path/*.ext] lists, every entry that ends in the extension
    has a name that starts with a dot, [load_dir] raises the assertion's
    error. *)
Theorem load_dir_ignores_hidden_files
    (PyPDFLoader_load BSHTMLLoader_load : string -> result (list Document))
    (split_documents :
       list string -> Z -> Z -> list Document -> list Document)
    (cpu_count : Z) (completion_order : list string -> list string)
    (listdir : string -> list string) (iglob_dirs : string -> list string)
    (self : Loader) (dir_path : string) (workers : Z) :
  (forall dirname, dirname ∈ glob_dirs iglob_dirs dir_path ->
     forall name, name ∈ listdir dirname ->
       Str.endswith ("." +:+ file_type_name (loader_file_type self)) name
       = true ->
       Str.startswith "." name = true) ->
  load_dir PyPDFLoader_load BSHTMLLoader_load split_documents cpu_count
    completion_order listdir iglob_dirs self dir_path workers
  = Raise (AssertionError
             ("No " +:+ file_type_name (loader_file_type self)
              +:+ " files found in " +:+ dir_path)).
Proof.
  intros Hhidden. unfold load_dir, no_files_message.
  destruct (loader_file_type self) eqn:E; cbn [file_type_name] in Hhidden;
    rewrite glob_empty; try done;
    intros dirname Hdir name Hname; unfold fnmatch_ext;
    (destruct (Str.endswith _ name) eqn:Eext; [|done]);
    by rewrite (Hhidden dirname Hdir name Hname Eext).
Qed.

Lemma load_dir_ignores_hidden_files_witness :
  load_dir (fun _ => Ok []) (fun _ => Ok []) (fun _ _ _ docs => docs) 8
    (fun files => files) (fun _ => [".draft.pdf"; "readme.md"])
    (fun _ => []) (new_Loader pdf) "data" 4
  = Raise (AssertionError "No pdf files found in data").
Proof.
  apply (load_dir_ignores_hidden_files (fun _ => Ok []) (fun _ => Ok [])
           (fun _ _ _ docs => docs) 8 (fun files => files)
           (fun _ => [".draft.pdf"; "readme.md"]) (fun _ => [])
           (new_Loader pdf) "data" 4).
  intros dirname _ name Hname.
  apply elem_of_cons in Hname as [->|Hname]; [done|].
  apply elem_of_cons in Hname as [->|Hname]; [by vm_compute|].
  by apply elem_of_nil in Hname.
Defined.

(** X23. A path that holds none of the characters [*], [?] and [[]: when
    no entry of the directory ends in the extension of the declared type,
    [load_dir] raises the assertion's error and loads nothing. *)
Theorem load_dir_plain_path_without_matching_files
    (PyPDFLoader_load BSHTMLLoader_load : string -> result (list Document))
    (split_documents :
       list string -> Z -> Z -> list Document -> list Document)
    (cpu_count : Z) (completion_order : list string -> list string)
    (listdir : string -> list string) (iglob_dirs : string -> list string)
    (self : Loader) (dir_path : string) (workers : Z) :
  has_magic dir_path = false ->
  (forall name, name ∈ listdir (pattern_dirname dir_path) ->
     Str.endswith ("." +:+ file_type_name (loader_file_type self)) name
     = false) ->
  load_dir PyPDFLoader_load BSHTMLLoader_load split_documents cpu_count
    completion_order listdir iglob_dirs self dir_path workers
  = Raise (AssertionError
             ("No " +:+ file_type_name (loader_file_type self)
              +:+ " files found in " +:+ dir_path)).
Proof.
  intros Hplain Hnone. unfold load_dir, no_files_message.
  destruct (loader_file_type self) eqn:E; cbn [file_type_name] in Hnone;
    rewrite glob_empty; try done;
    rewrite glob_dirs_literal by done;
    intros dirname ->%list_elem_of_singleton name Hname;
    by apply fnmatch_ext_extension, Hnone.
Qed.

Lemma load_dir_plain_path_without_matching_files_witness :
  load_dir (fun _ => Ok []) (fun _ => Ok []) (fun _ _ _ docs => docs) 8
    (fun files => files) (fun _ => ["notes.txt"; "index.html"])
    (fun _ => ["elsewhere"]) (new_Loader pdf) "data" 2
  = Raise (AssertionError "No pdf files found in data").
Proof.
  apply (load_dir_plain_path_without_matching_files
           (fun _ => Ok []) (fun _ => Ok []) (fun _ _ _ docs => docs) 8
           (fun files => files) (fun _ => ["notes.txt"; "index.html"])
           (fun _ => ["elsewhere"]) (new_Loader pdf) "data" 2).
  - by vm_compute.
  - intros name Hname.
    apply elem_of_cons in Hname as [->|Hname]; [by vm_compute|].
    apply elem_of_cons in Hname as [->|Hname]; [by vm_compute|].
    by apply elem_of_nil in Hname.
Defined.
End LoaderMore.
